(** * Audio2Face SDK: windowing, decoding, smoothing, aggregation, resampling

    A shallow embedding of [src/audio2face-sdk-node.mjs] (class
    [Audio2FaceSDK]; the browser variant shares every method modelled here
    except the audio decoding front end of [processAudioFile]).

    JavaScript numbers are IEEE 754 binary64 values.  They are modelled with
    the Standard Library's executable specification of floating-point
    arithmetic ([SpecFloat], round to nearest even), so that every
    definition below can be evaluated on concrete inputs. *)

From Stdlib Require Import ZArith List Bool String Lia SpecFloat.
Import ListNotations.
Open Scope Z_scope.

(** ** JavaScript numbers *)

Module Num.

Definition prec : Z := 53.
Definition emax : Z := 1024.

Definition float : Type := spec_float.

Definition add : float -> float -> float := SFadd prec emax.
Definition sub : float -> float -> float := SFsub prec emax.
Definition mul : float -> float -> float := SFmul prec emax.
Definition div : float -> float -> float := SFdiv prec emax.
Definition opp : float -> float := SFopp.
Definition ltb : float -> float -> bool := SFltb.
Definition leb : float -> float -> bool := SFleb.
Definition eqb : float -> float -> bool := SFeqb.

Definition nan : float := S754_nan.
Definition zero : float := S754_zero false.

(** An integer as a number: exact below 2^53, rounded above. *)
Definition of_Z (z : Z) : float := binary_normalize prec emax z 0 false.

Definition one : float := Eval vm_compute in of_Z 1.
(** The literals [0.1] and [0.3]: the doubles nearest to 1/10 and 3/10. *)
Definition lit_0_1 : float := Eval vm_compute in div (of_Z 1) (of_Z 10).
Definition lit_0_3 : float := Eval vm_compute in div (of_Z 3) (of_Z 10).

Definition is_nan (x : float) : bool :=
  match x with S754_nan => true | _ => false end.

Definition is_finite (x : float) : bool :=
  match x with S754_zero _ | S754_finite _ _ _ => true | _ => false end.

(** The value lies in the closed interval [0, 1]. *)
Definition in_unit (x : float) : bool := leb zero x && leb x one.

(** [ToBoolean] on a number: [0], [-0] and [NaN] are falsy. *)
Definition truthy (x : float) : bool :=
  match x with
  | S754_zero _ | S754_nan => false
  | _ => true
  end.

(** [Math.floor]. *)
Definition floor (x : float) : float :=
  match x with
  | S754_finite s m e =>
      if 0 <=? e then x
      else
        let z := Z.shiftr (if s then Z.neg m else Z.pos m) (- e) in
        binary_normalize prec emax z 0 s
  | _ => x
  end.

(** [Math.min(a, b)] and [Math.max(a, b)]: [NaN] if either argument is
    [NaN]; [-0] is smaller than [+0]. *)
Definition is_neg_zero (x : float) : bool :=
  match x with S754_zero true => true | _ => false end.

Definition min (a b : float) : float :=
  if is_nan a || is_nan b then nan
  else if ltb b a then b
  else if ltb a b then a
  else if is_neg_zero b then b else a.

Definition max (a b : float) : float :=
  if is_nan a || is_nan b then nan
  else if ltb a b then b
  else if ltb b a then a
  else if is_neg_zero a then b else a.

(** The integer value of an integral finite number ([None] otherwise). *)
Definition to_Z (x : float) : option Z :=
  match x with
  | S754_zero _ => Some 0
  | S754_finite s m e =>
      if 0 <=? e then Some ((if s then Z.neg m else Z.pos m) * 2 ^ e)
      else if Z.eqb (Z.land (Z.pos m) (Z.ones (- e))) 0
           then Some (Z.shiftr (if s then Z.neg m else Z.pos m) (- e))
           else None
  | _ => None
  end.

(** Storing into a [Float32Array] element rounds to binary32
    ([Math.fround]); reading it back is exact. *)
Definition fround (x : float) : float :=
  match x with
  | S754_finite s m e =>
      match binary_round 24 128 s m e with
      | S754_finite s' m' e' => binary_round prec emax s' m' e'
      | y => y
      end
  | _ => x
  end.

End Num.

Abbreviation float := Num.float.

(** ** Errors and results of fallible operations *)

Inductive error : Type :=
  | ModelNotLoaded                 (* 'Model not loaded. Call loadModel() first.' *)
  | InvalidAudio                   (* 'Audio must be Buffer, ArrayBuffer, or Float32Array' *)
  | TypeError                      (* property read on [undefined] *)
  | RangeError                     (* invalid typed array length or view *)
  | InferenceError (msg : string)  (* rejection raised by the inference engine *)
  | LoopBudget.                    (* iteration budget of the model used up; never
                                      returned, see [processAudioFile_completes] *)

Inductive outcome (A : Type) : Type :=
  | Ok (a : A)
  | Throw (e : error).
Arguments Ok {A} a.
Arguments Throw {A} e.

Definition bind {A B : Type} (x : outcome A) (f : A -> outcome B) : outcome B :=
  match x with
  | Ok a => f a
  | Throw e => Throw e
  end.

Notation "x <- c1 ;; c2" := (bind c1 (fun x => c2))
  (at level 61, c1 at next level, right associativity).

Fixpoint mapM {A B : Type} (f : A -> outcome B) (l : list A) : outcome (list B) :=
  match l with
  | [] => Ok []
  | a :: l' => b <- f a ;; bs <- mapM f l' ;; Ok (b :: bs)
  end.

Fixpoint foldM {A B : Type} (f : B -> A -> outcome B) (l : list A) (acc : B)
  : outcome B :=
  match l with
  | [] => Ok acc
  | a :: l' => acc' <- f acc a ;; foldM f l' acc'
  end.

Definition is_ok {A : Type} (x : outcome A) : bool :=
  match x with Ok _ => true | Throw _ => false end.

(** ** Data model *)

Definition len {A : Type} (l : list A) : Z := Z.of_nat (List.length l).

(** [a[i]] on an array or typed array: [undefined] ([None]) out of range. *)
Definition at_index {A : Type} (l : list A) (i : Z) : option A :=
  if i <? 0 then None else nth_error l (Z.to_nat i).

(** [a[x]] with a number as key: only an integral number names an element. *)
Definition at_number {A : Type} (l : list A) (x : float) : option A :=
  match Num.to_Z x with
  | Some i => at_index l i
  | None => None
  end.

(** [ToNumber]: [undefined] becomes [NaN]. *)
Definition to_number (v : option float) : float :=
  match v with
  | Some x => x
  | None => Num.nan
  end.

(** [v || 0] on a number or [undefined]. *)
Definition or_zero (v : option float) : float :=
  match v with
  | Some x => if Num.truthy x then x else Num.zero
  | None => Num.zero
  end.

Record Blendshape : Type := mkBlendshape {
  bs_name : string;
  bs_value : float
}.

Record Eyes : Type := mkEyes {
  leftX : float;
  leftY : float;
  rightX : float;
  rightY : float
}.

(** The objects returned by [parseOutputs], [getEmptyResult] (both carry a
    [timestamp]) and [aggregateResults] (carries a [frameCount]); [eyes] is
    [null] in the empty result. *)
Record Result : Type := mkResult {
  blendshapes : list Blendshape;
  jaw : float;
  eyes : option Eyes;
  timestamp : option Z;
  frameCount : option Z
}.

Definition with_blendshapes (r : Result) (bs : list Blendshape) : Result :=
  mkResult bs (jaw r) (eyes r) (timestamp r) (frameCount r).

Record Tensor : Type := mkTensor {
  t_type : string;
  t_data : list float;
  t_dims : list Z
}.

(** An object used as a map from names to tensors, in insertion order. *)
Definition TensorMap : Type := list (string * Tensor).

Fixpoint lookup (k : string) (m : TensorMap) : option Tensor :=
  match m with
  | [] => None
  | (k', t) :: m' => if String.eqb k k' then Some t else lookup k m'
  end.

Fixpoint assign (k : string) (t : Tensor) (m : TensorMap) : TensorMap :=
  match m with
  | [] => [(k, t)]
  | (k', t') :: m' =>
      if String.eqb k k' then (k, t) :: m' else (k', t') :: assign k t m'
  end.

Definition includes (k : string) (l : list string) : bool :=
  existsb (String.eqb k) l.

(** The inference engine ([ort.InferenceSession]).  [run history feeds] is
    what the promise [session.run(feeds)] settles to when [history] lists
    the feeds of the earlier calls. *)
Inductive settled : Type :=
  | Fulfilled (outputs : TensorMap)
  | Rejected (reason : string).

Record Session : Type := mkSession {
  inputNames : list string;
  outputNames : list string;
  run : list TensorMap -> TensorMap -> settled
}.

(** The mutable fields of an [Audio2FaceSDK] instance.  [inferenceLog] is
    not a field of the class: it records the feeds of every [session.run]
    call made so far. *)
Record SDK : Type := mkSDK {
  session : option Session;
  audioBuffer : list float;
  lastResult : option Result;
  smoothingFactor : float;
  inferenceLog : list TensorMap
}.

Definition set_audioBuffer (s : SDK) (b : list float) : SDK :=
  mkSDK (session s) b (lastResult s) (smoothingFactor s) (inferenceLog s).

Definition set_lastResult (s : SDK) (r : option Result) : SDK :=
  mkSDK (session s) (audioBuffer s) r (smoothingFactor s) (inferenceLog s).

Definition set_smoothingFactor (s : SDK) (f : float) : SDK :=
  mkSDK (session s) (audioBuffer s) (lastResult s) f (inferenceLog s).

Definition log_call (s : SDK) (feeds : TensorMap) : SDK :=
  mkSDK (session s) (audioBuffer s) (lastResult s) (smoothingFactor s)
        (inferenceLog s ++ [feeds]).

(** Fields set once by the constructor and never written again. *)
Definition sampleRate : Z := 16000.
Definition bufferLen : Z := 8320.
Definition bufferOfs : Z := 4160.
Definition skinOffset : Z := 0.
Definition skinSize : Z := 140.
Definition tongueOffset : Z := 140.
Definition tongueSize : Z := 10.
Definition jawOffset : Z := 150.
Definition jawSize : Z := 15.
Definition eyesOffset : Z := 165.
Definition eyesSize : Z := 4.

Definition generateBlendshapeNames : list string := [
  "browInnerUp"; "browDownLeft"; "browDownRight"; "browOuterUpLeft";
  "browOuterUpRight"; "eyeLookUpLeft"; "eyeLookUpRight"; "eyeLookDownLeft";
  "eyeLookDownRight"; "eyeLookInLeft"; "eyeLookInRight"; "eyeLookOutLeft";
  "eyeLookOutRight"; "eyeBlinkLeft"; "eyeBlinkRight"; "eyeSquintLeft";
  "eyeSquintRight"; "eyeWideLeft"; "eyeWideRight"; "cheekPuff";
  "cheekSquintLeft"; "cheekSquintRight"; "noseSneerLeft"; "noseSneerRight";
  "jawOpen"; "jawForward"; "jawLeft"; "jawRight";
  "mouthFunnel"; "mouthPucker"; "mouthLeft"; "mouthRight";
  "mouthRollUpper"; "mouthRollLower"; "mouthShrugUpper"; "mouthShrugLower";
  "mouthOpen"; "mouthClose"; "mouthSmileLeft"; "mouthSmileRight";
  "mouthFrownLeft"; "mouthFrownRight"; "mouthDimpleLeft"; "mouthDimpleRight";
  "mouthUpperUpLeft"; "mouthUpperUpRight"; "mouthLowerDownLeft"; "mouthLowerDownRight";
  "mouthPressLeft"; "mouthPressRight"; "mouthStretchLeft"; "mouthStretchRight"
]%string.

Definition blendshapeNames : list string := generateBlendshapeNames.

Definition new_SDK : SDK := mkSDK None [] None Num.lit_0_3 [].

(** ** [Math.exp]

    [Math.exp] is supplied by the host.  ECMAScript fixes its value at
    [NaN] and at the zeros and leaves the rest to the implementation
    ("implementation-approximated"), which never answers [NaN] for a
    number.  The decoder is modelled over any such function. *)

Class MathExp : Type := {
  exp : float -> float;
  exp_nan : exp Num.nan = Num.nan;
  exp_zero : forall s, exp (S754_zero s) = Num.one;
  exp_number : forall x, Num.is_nan x = false -> Num.is_nan (exp x) = false
}.

(** A coarse but total instance: [e^x] rounded down to a power of two
    (through [x * 14427 / 10000], an approximation of [x * log2 e]).  It
    shows the interface is inhabited and lets the decoder run. *)
Definition pow2_exp (x : float) : float :=
  match x with
  | S754_nan => S754_nan
  | S754_zero _ => Num.one
  | S754_infinity false => S754_infinity false
  | S754_infinity true => S754_zero false
  | S754_finite s m e =>
      let z := if s then Z.neg m else Z.pos m in
      let k := if 0 <=? e then (z * 2 ^ e * 14427) / 10000
               else (z * 14427) / (10000 * 2 ^ (- e)) in
      if 1023 <? k then S754_infinity false
      else if k <? -1022 then S754_zero false
      else S754_finite false 4503599627370496 (k - 52)
  end.

#[export] Program Instance pow2_MathExp : MathExp := {| exp := pow2_exp |}.
Next Obligation.
  destruct x as [s| [|] | |s m e]; simpl in *; try reflexivity; try discriminate.
  repeat match goal with |- context [if ?b then _ else _] => destruct b end;
    reflexivity.
Qed.

(** ** Array helpers *)

(** The index values of [for (let i = 0; i < n; i++)]. *)
Definition range (n : Z) : list Z := map Z.of_nat (seq 0 (Z.to_nat n)).

(** [a.slice(from, to)] and [a.slice(from)] for non-negative bounds (the
    only ones the SDK passes); bounds past the end are clamped. *)
Definition slice {A : Type} (l : list A) (from to : Z) : list A :=
  firstn (Z.to_nat (to - from)) (skipn (Z.to_nat from) l).

Definition slice_from {A : Type} (l : list A) (from : Z) : list A :=
  skipn (Z.to_nat from) l.

(** [names[0]] used as a property key: [undefined] names the property
    ["undefined"]. *)
Definition first_name (names : list string) : string :=
  match names with
  | n :: _ => n
  | [] => "undefined"%string
  end.

Definition name_at (names : list string) (i : Z) : string :=
  match at_index names i with
  | Some n => n
  | None => "undefined"%string
  end.

Definition require {A : Type} (v : option A) : outcome A :=
  match v with
  | Some a => Ok a
  | None => Throw TypeError
  end.

(** ** The decoder, the smoother and the aggregator *)

Section Pipeline.

Context {M : MathExp}.

Definition sigmoid (x : float) : float :=
  Num.div Num.one (Num.add Num.one (exp (Num.opp x))).

(** [Math.max(0, Math.min(1, v))]. *)
Definition clamp01 (v : float) : float :=
  Num.max Num.zero (Num.min Num.one v).

Definition parseOutputs (sess : Session) (now : Z) (outputs : TensorMap)
  : outcome Result :=
  t <- require (lookup (first_name (outputNames sess)) outputs) ;;
  let data := t_data t in
  let numBs := Z.min (len blendshapeNames) skinSize in
  let blendshapes :=
    map (fun i =>
           let raw := at_index data (skinOffset + i) in
           mkBlendshape (name_at blendshapeNames i)
             (clamp01 (sigmoid (Num.mul (to_number raw) Num.lit_0_1))))
        (range numBs) in
  let jawValues :=
    map (fun i => or_zero (at_index data (jawOffset + i))) (range jawSize) in
  let jaw :=
    clamp01 (sigmoid (Num.mul (to_number (at_index jawValues 0)) Num.lit_0_1)) in
  let eo := eyesOffset in
  let eyes :=
    mkEyes (or_zero (at_index data eo))
           (or_zero (at_index data (eo + 1)))
           (or_zero (at_index data (eo + 2)))
           (or_zero (at_index data (eo + 3))) in
  Ok (mkResult blendshapes jaw (Some eyes) (Some now) None).

Definition build_feeds (sess : Session) (audioChunk : list float) : TensorMap :=
  let inputTensor := mkTensor "float32" audioChunk [1; 1; len audioChunk] in
  let names := inputNames sess in
  let feeds :=
    if includes "audio" names then assign "audio" inputTensor []
    else if includes "input" names then assign "input" inputTensor []
    else assign (first_name names) inputTensor [] in
  if includes "emotion" names then
    let emotionData := repeat Num.zero 26 in
    assign "emotion" (mkTensor "float32" emotionData [1; 1; 26]) feeds
  else feeds.

Definition runInference (now : Z) (audioChunk : list float) (s : SDK)
  : SDK * outcome Result :=
  match session s with
  | None => (s, Throw ModelNotLoaded)
  | Some sess =>
      let feeds := build_feeds sess audioChunk in
      let answer := run sess (inferenceLog s) feeds in
      let s' := log_call s feeds in
      match answer with
      | Rejected reason => (s', Throw (InferenceError reason))
      | Fulfilled results => (s', parseOutputs sess now results)
      end
  end.

Definition smoothBlendshapes (factor : float)
  (prev : option (list Blendshape)) (curr : list Blendshape)
  : list Blendshape :=
  match prev with
  | None => curr
  | Some prev =>
      if negb (Nat.eqb (List.length prev) (List.length curr)) then curr
      else
        map (fun pb : Blendshape * Blendshape =>
               let (p, bs) := pb in
               mkBlendshape (bs_name bs)
                 (Num.add (Num.mul (bs_value p) factor)
                          (Num.mul (bs_value bs) (Num.sub Num.one factor))))
            (combine prev curr)
  end.

Definition getEmptyResult (now : Z) : Result :=
  mkResult (map (fun name => mkBlendshape name Num.zero) blendshapeNames)
           Num.zero None (Some now) None.

Definition aggregateResults (now : Z) (results : list Result)
  : outcome Result :=
  match results with
  | [] => Ok (getEmptyResult now)
  | r0 :: _ =>
      let numBs := len (blendshapes r0) in
      avgBlendshapes <-
        mapM (fun i =>
                sum <- foldM (fun acc r =>
                                b <- require (at_index (blendshapes r) i) ;;
                                Ok (Num.add acc (bs_value b)))
                             results Num.zero ;;
                b0 <- require (at_index (blendshapes r0) i) ;;
                Ok (mkBlendshape (bs_name b0)
                      (Num.div sum (Num.of_Z (len results)))))
             (range numBs) ;;
      Ok (mkResult avgBlendshapes
            (Num.div (fold_left (fun acc r => Num.add acc (jaw r)) results Num.zero)
                     (Num.of_Z (len results)))
            (eyes (last results r0))
            None
            (Some (len results)))
  end.

End Pipeline.

(** ** The two driving modes *)

(** What [processAudioFile] is handed.  A Node [Buffer] is a window
    ([byteOffset], [byteLength]) on an [ArrayBuffer], an [ArrayBuffer] is
    [byteLength] bytes, a [Float32Array] is its elements; [words] are the
    binary32 values that the bytes hold, four bytes each, from the start of
    the window on.  Anything else is [Unsupported].  Buffers are taken
    attached and windows to lie within their [ArrayBuffer], as Node makes
    them. *)
Inductive AudioInput : Type :=
  | NodeBuffer (byteOffset byteLength : Z) (words : list float)
  | ArrayBufferInput (byteLength : Z) (words : list float)
  | Float32Samples (samples : list float)
  | Unsupported.

(** The [Float32Array] that [processAudioFile] reads.
    [new Float32Array(buffer, byteOffset, byteLength / 4)] refuses a
    [byteOffset] that is not a multiple of 4 and truncates the length;
    [new Float32Array(arrayBuffer)] refuses a byte length that is not a
    multiple of 4.  Both refusals are a [RangeError]. *)
Definition float32_view (audioBuffer : AudioInput) : outcome (list float) :=
  match audioBuffer with
  | NodeBuffer byteOffset byteLength words =>
      if byteOffset mod 4 =? 0
      then Ok (firstn (Z.to_nat (byteLength / 4)) words)
      else Throw RangeError
  | ArrayBufferInput byteLength words =>
      if byteLength mod 4 =? 0
      then Ok (firstn (Z.to_nat (byteLength / 4)) words)
      else Throw RangeError
  | Float32Samples samples => Ok samples
  | Unsupported => Throw InvalidAudio
  end.

Section Facade.

Context {M : MathExp}.

(** The [for] loop of [processAudioFile].  [clock k] is the value of the
    [k]-th [Date.now()] read of the call.  The loop counter grows by
    [hopSize] on every turn; [fuel] bounds the number of turns of the
    model. *)
Fixpoint batch_loop (fuel : nat) (clock : nat -> Z) (audioData : list float)
  (hopSize : Z) (i : Z) (results : list Result) (s : SDK)
  : SDK * outcome (list Result) :=
  if i <? len audioData - bufferLen then
    match fuel with
    | O => (s, Throw LoopBudget)
    | S fuel' =>
        let chunk := slice audioData i (i + bufferLen) in
        match runInference (clock (List.length results)) chunk s with
        | (s', Throw e) => (s', Throw e)
        | (s', Ok result) =>
            batch_loop fuel' clock audioData hopSize (i + hopSize)
                       (results ++ [result]) s'
        end
    end
  else (s, Ok results).

Definition processAudioFile (clock : nat -> Z) (audioBuffer : AudioInput)
  (s : SDK) : SDK * outcome Result :=
  match session s with
  | None => (s, Throw ModelNotLoaded)
  | Some _ =>
      match float32_view audioBuffer with
      | Throw e => (s, Throw e)
      | Ok audioData =>
          let hopSize := bufferOfs in
          match batch_loop (List.length audioData) clock audioData hopSize 0 [] s with
          | (s', Throw e) => (s', Throw e)
          | (s', Ok results) =>
              (s', aggregateResults (clock (List.length results)) results)
          end
      end
  end.

(** [audioData] is copied into a [Float32Array], which rounds every
    element to binary32. *)
Definition processAudioChunk (now : Z) (audioData : list float) (s : SDK)
  : SDK * outcome Result :=
  match session s with
  | None => (s, Throw ModelNotLoaded)
  | Some _ =>
      let newBuffer := audioBuffer s ++ map Num.fround audioData in
      let s1 := set_audioBuffer s newBuffer in
      if len (audioBuffer s1) <? bufferLen then
        (s1, Ok match lastResult s1 with
                | Some r => r
                | None => getEmptyResult now
                end)
      else
        let chunk := slice (audioBuffer s1) 0 bufferLen in
        let s2 := set_audioBuffer s1 (slice_from (audioBuffer s1) bufferOfs) in
        match runInference now chunk s2 with
        | (s3, Throw e) => (s3, Throw e)
        | (s3, Ok result) =>
            let result' :=
              match lastResult s3 with
              | Some last =>
                  with_blendshapes result
                    (smoothBlendshapes (smoothingFactor s3)
                       (Some (blendshapes last)) (blendshapes result))
              | None => result
              end in
            (set_lastResult s3 (Some result'), Ok result')
        end
  end.

Definition setSmoothing (factor : float) (s : SDK) : SDK :=
  set_smoothingFactor s (Num.max Num.zero (Num.min Num.one factor)).

(** [session.release()] is the engine's business; the instance forgets the
    session, the buffer and the last frame. *)
Definition dispose (s : SDK) : SDK :=
  mkSDK None [] None (smoothingFactor s) (inferenceLog s).

(** A sequence of [processAudioChunk] calls, the [k]-th one reading the
    clock value [now + k]; the states after each call, oldest first. *)
Fixpoint feed_chunks (now : Z) (chunks : list (list float)) (s : SDK)
  : list (SDK * outcome Result) :=
  match chunks with
  | [] => []
  | c :: chunks' =>
      let r := processAudioChunk now c s in
      r :: feed_chunks (now + 1) chunks' (fst r)
  end.

End Facade.

(** ** The resampler *)

(** [new Float32Array(n)]: [ToIndex] maps [NaN] to 0, truncates, and
    refuses a negative length or one above [2 ^ 53 - 1].  The allocation
    that follows may be refused below that bound (a [RangeError] as well),
    at a limit that is the engine's own: that limit is not part of the
    model, which allocates every length [ToIndex] accepts. *)
Definition typed_array_length (n : float) : outcome nat :=
  match n with
  | S754_nan | S754_zero _ => Ok O
  | S754_infinity _ => Throw RangeError
  | S754_finite s m e =>
      let z := if 0 <=? e then Z.pos m * 2 ^ e else Z.pos m / 2 ^ (- e) in
      let z := if s then - z else z in
      if (0 <=? z) && (z <=? 2 ^ 53 - 1) then Ok (Z.to_nat z)
      else Throw RangeError
  end.

Definition resampleAudio (audioData : list float) (fromRate toRate : float)
  : outcome (list float) :=
  let ratio := Num.div toRate fromRate in
  let newLength := Num.floor (Num.mul (Num.of_Z (len audioData)) ratio) in
  n <- typed_array_length newLength ;;
  Ok (map (fun i =>
             let pos := Num.div (Num.of_Z i) ratio in
             let index := Num.floor pos in
             let frac := Num.sub pos index in
             Num.fround
               (if Num.leb (Num.of_Z (len audioData - 1)) index then
                  to_number (at_index audioData (len audioData - 1))
                else
                  Num.add
                    (Num.mul (to_number (at_number audioData index))
                             (Num.sub Num.one frac))
                    (Num.mul (to_number (at_number audioData (Num.add index Num.one)))
                             frac)))
          (range (Z.of_nat n))).

(** The buffer of [processAudioChunk] after its append. *)
Definition appended (s : SDK) (chunk : list float) : list float :=
  audioBuffer s ++ map Num.fround chunk.

(** An element read from a [Float32Array] of audio: a finite, well-formed
    number that binary32 represents exactly. *)
Definition float32_sample (v : float) : Prop :=
  Num.is_finite v = true /\ valid_binary 53 1024 v = true /\ Num.fround v = v.

(** Equality of numbers ([===]); a non-zero number has one representation,
    the two zeros are equal. *)
Definition same_number (a b : float) : Prop :=
  Num.eqb a b = true /\ (Num.truthy b = true -> a = b).

(** The number of turns of the batch loop over [n] samples: the offsets
    [k * bufferOfs] with [k * bufferOfs < n - bufferLen]. *)
Definition window_count (n : Z) : Z :=
  if n - bufferLen <=? 0 then 0 else (n - bufferLen - 1) / bufferOfs + 1.

(** An engine that fulfils every call with an object that holds its first
    output. *)
Definition answers (sess : Session) : Prop :=
  forall history feeds,
    exists outputs t,
      run sess history feeds = Fulfilled outputs /\
      lookup (first_name (outputNames sess)) outputs = Some t.

(** ** Engines and inputs used in the examples *)

(** An engine with one input and one output that answers every call with
    the same raw output vector. *)
Definition steady_session (raw : list float) : Session :=
  mkSession ["audio"%string] ["output"%string]
    (fun _ _ => Fulfilled [("output"%string, mkTensor "float32" raw [1; len raw])]).

(** An engine that rejects every call. *)
Definition broken_session : Session :=
  mkSession ["audio"%string] ["output"%string]
    (fun _ _ => Rejected "inference failed").


Definition loaded (sess : Session) : SDK :=
  mkSDK (Some sess) [] None Num.lit_0_3 [].

Definition silence (n : Z) : list float := repeat Num.zero (Z.to_nat n).

Definition no_clock : nat -> Z := fun _ => 0.

(** ** Loading a model

    [loadModel] of the Node variant.  The file system and
    [ort.InferenceSession.create] belong to the host: what they answer is a
    parameter, a value or a failure with its message. *)

Definition ModelBytes : Type := list Z.

(** What [loadModel] is given, in the order the method tests it. *)
Inductive ModelFile : Type :=
  | ModelArrayBuffer (bytes : ModelBytes)
  | ModelNodeBuffer (bytes : ModelBytes)
  | ModelPath (path : string)
  | ModelBlob (bytes : ModelBytes)
  | ModelOther.

Record SessionOptions : Type := mkSessionOptions {
  executionProviders : list string;
  graphOptimizationLevel : string
}.

Inductive host_answer (A : Type) : Type :=
  | Returned (a : A)
  | Raised (message : string).
Arguments Returned {A} a.
Arguments Raised {A} message.

(** [create attempts bytes options] is what the [k]-th call of
    [InferenceSession.create] on this instance settles to, [attempts]
    listing the earlier calls. *)
Record Host : Type := mkHost {
  readFileSync : string -> host_answer ModelBytes;
  create : list (ModelBytes * SessionOptions) -> ModelBytes -> SessionOptions
           -> host_answer Session
}.

Inductive load_error : Type :=
  | InvalidModel                   (* 'Model must be a File, Blob, ArrayBuffer, Buffer, or URL string' *)
  | HostError (message : string).  (* raised by the file system or by the engine *)

Inductive load_result : Type :=
  | LoadOk (sess : Session)
  | LoadThrow (e : load_error).

(** The instance together with its [actualBackend] field and the list of
    [InferenceSession.create] calls made for it. *)
Record Instance : Type := mkInstance {
  sdk : SDK;
  actualBackend : option string;
  createLog : list (ModelBytes * SessionOptions)
}.

Definition set_session (s : SDK) (sess : Session) : SDK :=
  mkSDK (Some sess) (audioBuffer s) (lastResult s) (smoothingFactor s)
        (inferenceLog s).

Definition new_Instance : Instance := mkInstance new_SDK None [].

(** [options.useGPU], [false] when the option is absent. *)
Definition useGPU_of (options : option bool) : bool :=
  match options with
  | Some b => b
  | None => false
  end.

Definition loadModel (host : Host) (modelFile : ModelFile)
  (options : option bool) (this : Instance) : Instance * load_result :=
  let useGPU := useGPU_of options in
  let modelBuffer :=
    match modelFile with
    | ModelArrayBuffer bytes => Returned (Some bytes)
    | ModelNodeBuffer bytes => Returned (Some bytes)
    | ModelPath path =>
        match readFileSync host path with
        | Returned bytes => Returned (Some bytes)
        | Raised message => Raised message
        end
    | ModelBlob bytes => Returned (Some bytes)
    | ModelOther => Returned None
    end in
  match modelBuffer with
  | Raised message => (this, LoadThrow (HostError message))
  | Returned None => (this, LoadThrow InvalidModel)
  | Returned (Some modelBuffer) =>
      let sessionOptions :=
        mkSessionOptions
          (if useGPU then ["cuda"; "cpu"] else ["cpu"])%string "all" in
      let first := create host (createLog this) modelBuffer sessionOptions in
      let log1 := createLog this ++ [(modelBuffer, sessionOptions)] in
      match first with
      | Returned sess =>
          (mkInstance (set_session (sdk this) sess)
                      (Some (first_name (executionProviders sessionOptions)))
                      log1,
           LoadOk sess)
      | Raised _ =>
          let sessionOptions :=
            mkSessionOptions ["cpu"%string]
                             (graphOptimizationLevel sessionOptions) in
          let second := create host log1 modelBuffer sessionOptions in
          let log2 := log1 ++ [(modelBuffer, sessionOptions)] in
          match second with
          | Returned sess =>
              (mkInstance (set_session (sdk this) sess) (Some "cpu"%string) log2,
               LoadOk sess)
          | Raised message =>
              (mkInstance (sdk this) (actualBackend this) log2,
               LoadThrow (HostError message))
          end
      end
  end.

(** [dispose] on the instance: the SDK fields as [dispose] leaves them. *)
Definition dispose_instance (this : Instance) : Instance :=
  mkInstance (dispose (sdk this)) (actualBackend this) (createLog this).

(** ** Streams of chunks *)

Section Streams.

Context {M : MathExp}.

(** The instance after a sequence of [processAudioChunk] calls, the [k]-th
    one reading the clock value [now + k]. *)
Fixpoint after_chunks (now : Z) (chunks : list (list float)) (s : SDK) : SDK :=
  match chunks with
  | [] => s
  | c :: chunks' => after_chunks (now + 1) chunks' (fst (processAudioChunk now c s))
  end.

End Streams.

(** All samples an instance has been given: those buffered at the start
    and the chunks fed since, as stored in the [Float32Array]. *)
Definition stream_of (s : SDK) (chunks : list (list float)) : list float :=
  audioBuffer s ++ List.concat (map (map Num.fround) chunks).

(** The feeds of the windows at the first [k] hop offsets of [stream]. *)
Definition window_feeds (sess : Session) (stream : list float) (k : Z)
  : list TensorMap :=
  map (fun j => build_feeds sess
                  (slice stream (j * bufferOfs) (j * bufferOfs + bufferLen)))
      (range k).

(** The engine's answer to the window at the [j]-th hop offset of [stream],
    asked after the calls of [log] and the [j] windows before it. *)
Definition window_answer (sess : Session) (log : list TensorMap)
  (stream : list float) (j : Z) : settled :=
  run sess (log ++ window_feeds sess stream j)
      (build_feeds sess
         (slice stream (j * bufferOfs) (j * bufferOfs + bufferLen))).

(** What [runInference] throws on an answer of the engine: the rejection,
    or the [TypeError] of reading [.data] of a missing first output;
    nothing when the answer holds the first output. *)
Definition answer_error (sess : Session) (a : settled) : option error :=
  match a with
  | Rejected reason => Some (InferenceError reason)
  | Fulfilled outputs =>
      match lookup (first_name (outputNames sess)) outputs with
      | None => Some TypeError
      | Some _ => None
      end
  end.

(** The number of engine calls made between two states of an instance. *)
Definition calls_made (s s' : SDK) : Z :=
  len (inferenceLog s') - len (inferenceLog s).

(** An engine that answers its first [n] calls with the raw vector [raw]
    and rejects every call after them. *)
Definition failing_after (n : nat) (raw : list float) : Session :=
  mkSession ["audio"%string] ["output"%string]
    (fun history _ =>
       if (List.length history <? n)%nat
       then Fulfilled [("output"%string, mkTensor "float32" raw [1; len raw])]
       else Rejected "inference failed").

(** The name under which [runInference] feeds the audio tensor. *)
Definition audio_key (sess : Session) : string :=
  if includes "audio" (inputNames sess) then "audio"
  else if includes "input" (inputNames sess) then "input"
  else first_name (inputNames sess).

Definition audio_tensor (chunk : list float) : Tensor :=
  mkTensor "float32" chunk [1; 1; len chunk].

Definition emotion_tensor : Tensor :=
  mkTensor "float32" (repeat Num.zero 26) [1; 1; 26].

(** A host whose file system has one model file and whose engine accepts
    it on the CPU only; used in the examples. *)
Definition cpu_only_host : Host :=
  mkHost
    (fun path => if String.eqb path "model.onnx" then Returned [8; 1]
                 else Raised "ENOENT")
    (fun _ _ options =>
       if String.eqb (first_name (executionProviders options)) "cpu"
       then Returned (steady_session [])
       else Raised "no CUDA").

(** The held last frame, if any, carries the names of the table. *)
Definition holds_table_names (s : SDK) : Prop :=
  match lastResult s with
  | Some r => map bs_name (blendshapes r) = blendshapeNames
  | None => True
  end.

(** A blendshape value the arithmetic lemmas apply to: finite and
    well-formed. *)
Definition finite_value (b : Blendshape) : Prop :=
  Num.is_finite (bs_value b) = true /\ valid_binary 53 1024 (bs_value b) = true.

(** The number 0.5. *)
Definition one_half : float := Eval vm_compute in Num.div Num.one (Num.of_Z 2).

(** * Properties *)

(** ** Lengths of slices *)

Lemma len_app {A : Type} (l1 l2 : list A) : len (l1 ++ l2) = len l1 + len l2.
Proof. unfold len. rewrite length_app. lia. Qed.

Lemma len_map {A B : Type} (f : A -> B) (l : list A) : len (map f l) = len l.
Proof. unfold len. now rewrite length_map. Qed.

Lemma len_nonneg {A : Type} (l : list A) : 0 <= len l.
Proof. unfold len. lia. Qed.

Lemma len_slice_from {A : Type} (l : list A) (from : Z) :
  0 <= from <= len l -> len (slice_from l from) = len l - from.
Proof.
  unfold slice_from, len. intros H. rewrite length_skipn. lia.
Qed.

Lemma len_slice {A : Type} (l : list A) (from to : Z) :
  0 <= from <= to -> to <= len l -> len (slice l from to) = to - from.
Proof.
  unfold slice, len. intros H1 H2.
  rewrite length_firstn, length_skipn. lia.
Qed.

Lemma len_silence (n : Z) : 0 <= n -> len (silence n) = n.
Proof. unfold len, silence. intros H. rewrite repeat_length. lia. Qed.

(** ** What an inference call touches *)

Section Frame_conditions.

Context {M : MathExp}.

(** [runInference] writes none of the instance's fields: only the engine
    sees the call. *)
Lemma runInference_fields (now : Z) (chunk : list float) (s : SDK) :
  let s' := fst (runInference now chunk s) in
  session s' = session s /\ audioBuffer s' = audioBuffer s /\
  lastResult s' = lastResult s /\ smoothingFactor s' = smoothingFactor s.
Proof.
  unfold runInference. destruct (session s) as [sess|] eqn:E; simpl.
  - destruct (run sess (inferenceLog s) (build_feeds sess chunk)); simpl; auto.
  - auto.
Qed.

Lemma runInference_log (now : Z) (chunk : list float) (s : SDK) (sess : Session) :
  session s = Some sess ->
  inferenceLog (fst (runInference now chunk s))
  = inferenceLog s ++ [build_feeds sess chunk].
Proof.
  unfold runInference. intros ->.
  destruct (run sess (inferenceLog s) (build_feeds sess chunk)); reflexivity.
Qed.

Lemma batch_loop_fields (fuel : nat) (clock : nat -> Z) (audio : list float)
  (hop i : Z) (acc : list Result) (s : SDK) :
  let s' := fst (batch_loop fuel clock audio hop i acc s) in
  session s' = session s /\ audioBuffer s' = audioBuffer s /\
  lastResult s' = lastResult s /\ smoothingFactor s' = smoothingFactor s.
Proof.
  revert i acc s. induction fuel as [|fuel IH]; intros i acc s; simpl.
  - destruct (i <? len audio - bufferLen); simpl; auto.
  - destruct (i <? len audio - bufferLen); simpl; auto.
    pose proof (runInference_fields (clock (List.length acc))
                  (slice audio i (i + bufferLen)) s) as F.
    destruct (runInference (clock (List.length acc))
                (slice audio i (i + bufferLen)) s) as [s1 [r|e]]; simpl in F.
    + specialize (IH (i + hop) (acc ++ [r]) s1). simpl in IH.
      destruct IH as (I1 & I2 & I3 & I4), F as (F1 & F2 & F3 & F4).
      repeat split; congruence.
    + exact F.
Qed.

(** Two instances with the same session and the same engine history get
    the same answer from an inference call, whatever their streaming
    fields hold. *)
Lemma runInference_reads_session_only (now : Z) (chunk : list float)
  (s1 s2 : SDK) :
  session s1 = session s2 -> inferenceLog s1 = inferenceLog s2 ->
  snd (runInference now chunk s1) = snd (runInference now chunk s2) /\
  session (fst (runInference now chunk s1))
  = session (fst (runInference now chunk s2)) /\
  inferenceLog (fst (runInference now chunk s1))
  = inferenceLog (fst (runInference now chunk s2)).
Proof.
  intros Hs Hl. unfold runInference. rewrite Hs, Hl.
  destruct (session s2) as [sess|] eqn:E2;
    [|simpl; rewrite Hs, E2; auto].
  destruct (run sess (inferenceLog s2) (build_feeds sess chunk)); simpl;
    rewrite Hs, Hl, E2; auto.
Qed.

Lemma batch_loop_reads_session_only (fuel : nat) (clock : nat -> Z)
  (audio : list float) (hop i : Z) (acc : list Result) (s1 s2 : SDK) :
  session s1 = session s2 -> inferenceLog s1 = inferenceLog s2 ->
  snd (batch_loop fuel clock audio hop i acc s1)
  = snd (batch_loop fuel clock audio hop i acc s2).
Proof.
  revert i acc s1 s2.
  induction fuel as [|fuel IH]; intros i acc s1 s2 Hs Hl; simpl.
  - destruct (i <? len audio - bufferLen); reflexivity.
  - destruct (i <? len audio - bufferLen); [|reflexivity].
    destruct (runInference_reads_session_only (clock (List.length acc))
                (slice audio i (i + bufferLen)) s1 s2 Hs Hl) as (R & S & L).
    destruct (runInference (clock (List.length acc))
                (slice audio i (i + bufferLen)) s1) as [t1 [r1|e1]];
      destruct (runInference (clock (List.length acc))
                  (slice audio i (i + bufferLen)) s2) as [t2 [r2|e2]];
      simpl in R, S, L; try discriminate.
    + injection R as <-. apply IH; assumption.
    + now injection R as <-.
Qed.

End Frame_conditions.

(** C9.  A batch [processAudioFile] call leaves the streaming state as it
    found it: whatever the input and whatever the engine answers, the sample
    buffer, the held last frame and the smoothing factor after the call are
    those before it.  Nor does the call read them: with any other buffer,
    last frame and smoothing factor in their place it returns the same
    result, so nothing of the streaming path, smoothing included, enters
    the batch result. *)
Theorem processAudioFile_keeps_streaming_state
  {M : MathExp} (clock : nat -> Z) (input : AudioInput) (s : SDK)
  (buffer' : list float) (last' : option Result) (factor' : float) :
  let s' := fst (processAudioFile clock input s) in
  audioBuffer s' = audioBuffer s /\
  lastResult s' = lastResult s /\
  smoothingFactor s' = smoothingFactor s /\
  snd (processAudioFile clock input
         (mkSDK (session s) buffer' last' factor' (inferenceLog s)))
  = snd (processAudioFile clock input s).
Proof.
  unfold processAudioFile. cbn [session].
  destruct (session s) as [sess|] eqn:Hs; [|simpl; auto].
  destruct (float32_view input) as [audio|e0]; [|simpl; auto].
  pose proof (batch_loop_fields (List.length audio) clock audio bufferOfs 0 [] s) as F.
  pose proof (batch_loop_reads_session_only (List.length audio) clock audio
                bufferOfs 0 []
                (mkSDK (session s) buffer' last' factor' (inferenceLog s)) s
                eq_refl eq_refl) as R.
  rewrite Hs in R.
  destruct (batch_loop (List.length audio) clock audio bufferOfs 0 [] s)
    as [s1 [rs|e]];
    destruct (batch_loop (List.length audio) clock audio bufferOfs 0 []
                (mkSDK (Some sess) buffer' last' factor' (inferenceLog s)))
      as [s2 [rs2|e2]]; simpl in *; try discriminate;
    injection R as ->; repeat split; tauto.
Qed.

(** ** Streaming: one [processAudioChunk] call *)

Section Streaming.

Context {M : MathExp}.

Lemma len_appended (s : SDK) (chunk : list float) :
  len (appended s chunk) = len (audioBuffer s) + len chunk.
Proof. unfold appended. now rewrite len_app, len_map. Qed.

(** Below a full window the call only appends. *)
Lemma processAudioChunk_filling (now : Z) (chunk : list float) (s : SDK)
  (sess : Session) :
  session s = Some sess ->
  len (audioBuffer s) + len chunk < bufferLen ->
  processAudioChunk now chunk s
  = (set_audioBuffer s (appended s chunk),
     Ok match lastResult s with
        | Some r => r
        | None => getEmptyResult now
        end).
Proof.
  intros Hs Hlen. unfold processAudioChunk. rewrite Hs.
  cbn [audioBuffer set_audioBuffer lastResult].
  fold (appended s chunk). rewrite len_appended.
  destruct (Z.ltb_spec (len (audioBuffer s) + len chunk) bufferLen); [reflexivity|lia].
Qed.

(** With a full window the call slices it, shifts the buffer by the hop
    and then asks the engine. *)
Lemma processAudioChunk_ready (now : Z) (chunk : list float) (s : SDK)
  (sess : Session) :
  session s = Some sess ->
  bufferLen <= len (audioBuffer s) + len chunk ->
  processAudioChunk now chunk s
  = let s2 := set_audioBuffer s (slice_from (appended s chunk) bufferOfs) in
    match runInference now (slice (appended s chunk) 0 bufferLen) s2 with
    | (s3, Throw e) => (s3, Throw e)
    | (s3, Ok result) =>
        let result' :=
          match lastResult s3 with
          | Some last =>
              with_blendshapes result
                (smoothBlendshapes (smoothingFactor s3)
                   (Some (blendshapes last)) (blendshapes result))
          | None => result
          end in
        (set_lastResult s3 (Some result'), Ok result')
    end.
Proof.
  intros Hs Hlen. unfold processAudioChunk. rewrite Hs.
  cbn [audioBuffer set_audioBuffer lastResult].
  fold (appended s chunk). rewrite len_appended.
  destruct (Z.ltb_spec (len (audioBuffer s) + len chunk) bufferLen); [lia|reflexivity].
Qed.

(** The length of the buffer after a call that consumed a window. *)
Lemma processAudioChunk_ready_length (now : Z) (chunk : list float) (s : SDK)
  (sess : Session) :
  session s = Some sess ->
  bufferLen <= len (audioBuffer s) + len chunk ->
  len (audioBuffer (fst (processAudioChunk now chunk s)))
  = len (audioBuffer s) + len chunk - bufferOfs.
Proof.
  intros Hs Hlen. rewrite (processAudioChunk_ready now chunk s sess Hs Hlen).
  cbv zeta.
  pose proof (runInference_fields now (slice (appended s chunk) 0 bufferLen)
                (set_audioBuffer s (slice_from (appended s chunk) bufferOfs))) as F.
  destruct (runInference now (slice (appended s chunk) 0 bufferLen)
              (set_audioBuffer s (slice_from (appended s chunk) bufferOfs)))
    as [s3 [r|e]]; simpl in F; destruct F as (_ & F & _); simpl; rewrite F;
    simpl; rewrite len_slice_from, len_appended; unfold bufferOfs, bufferLen in *;
    try rewrite len_appended; lia.
Qed.

End Streaming.

(** C8.  On a loaded instance that holds no last frame, a
    [processAudioChunk] call that leaves fewer than [bufferLen] = 8320
    samples accumulated makes no inference call and returns the empty
    result: value 0 under every name of the table, in the table's order,
    jaw 0 and no eyes. *)
Theorem processAudioChunk_warm_up
  {M : MathExp} (now : Z) (chunk : list float) (s : SDK) (sess : Session) :
  session s = Some sess ->
  lastResult s = None ->
  len (audioBuffer s) + len chunk < 8320 ->
  let out := processAudioChunk now chunk s in
  inferenceLog (fst out) = inferenceLog s /\
  lastResult (fst out) = None /\
  exists r,
    snd out = Ok r /\
    blendshapes r = map (fun name => mkBlendshape name Num.zero) blendshapeNames /\
    jaw r = Num.zero /\
    eyes r = None.
Proof.
  intros Hs Hlast Hlen.
  rewrite (processAudioChunk_filling now chunk s sess Hs Hlen).
  rewrite Hlast. simpl. repeat split; auto.
  exists (getEmptyResult now). repeat split.
Qed.

Lemma processAudioChunk_warm_up_witness :
  exists r,
    snd (processAudioChunk 7 (silence 8319) (loaded (steady_session []))) = Ok r /\
    jaw r = Num.zero /\ eyes r = None.
Proof.
  destruct (processAudioChunk_warm_up 7 (silence 8319) (loaded (steady_session []))
              (steady_session []) eq_refl eq_refl)
    as (_ & _ & r & Hr & _ & Hj & He).
  - vm_compute. reflexivity.
  - exists r. auto.
Defined.


(** ** Streaming: failure of the engine *)

(** C2 as stated fails: with an engine that rejects, a call that fills a
    window throws, and the buffer afterwards is not the buffer before the
    call: the chunk has been appended and the hop dropped. *)
Lemma failed_inference_changes_buffer :
  snd (processAudioChunk 0 (silence 8320) (loaded broken_session))
  = Throw (InferenceError "inference failed") /\
  audioBuffer (fst (processAudioChunk 0 (silence 8320) (loaded broken_session)))
  <> audioBuffer (loaded broken_session) /\
  len (audioBuffer (fst (processAudioChunk 0 (silence 8320) (loaded broken_session))))
  = 4160.
Proof.
  vm_compute. repeat split; discriminate.
Qed.

(** C2, amended.  When the engine rejects the inference of a
    [processAudioChunk] call, the call throws the engine's rejection and the
    held last frame (like the smoothing factor and the session) is the one
    before the call; the sample buffer, however, has already been updated
    before the engine is asked: it is the old buffer with the chunk
    appended and the first [bufferOfs] = 4160 samples dropped. *)
Theorem processAudioChunk_engine_rejects
  {M : MathExp} (now : Z) (chunk : list float) (s : SDK) (sess : Session)
  (reason : string) :
  session s = Some sess ->
  bufferLen <= len (audioBuffer s) + len chunk ->
  run sess (inferenceLog s)
      (build_feeds sess (slice (appended s chunk) 0 bufferLen))
  = Rejected reason ->
  let out := processAudioChunk now chunk s in
  snd out = Throw (InferenceError reason) /\
  lastResult (fst out) = lastResult s /\
  smoothingFactor (fst out) = smoothingFactor s /\
  session (fst out) = session s /\
  audioBuffer (fst out) = slice_from (appended s chunk) bufferOfs /\
  len (audioBuffer (fst out)) = len (audioBuffer s) + len chunk - 4160.
Proof.
  intros Hs Hlen Hrun. cbv zeta.
  pose proof (processAudioChunk_ready_length now chunk s sess Hs Hlen) as HL.
  rewrite (processAudioChunk_ready now chunk s sess Hs Hlen) in HL |- *.
  cbv zeta in HL |- *. unfold runInference in HL |- *.
  cbn [session set_audioBuffer inferenceLog] in HL |- *.
  rewrite Hs, Hrun in HL |- *. cbn in HL |- *. rewrite Hs.
  repeat split. exact HL.
Qed.

Lemma processAudioChunk_engine_rejects_witness :
  snd (processAudioChunk 0 (silence 8320) (loaded broken_session))
  = Throw (InferenceError "inference failed") /\
  lastResult (fst (processAudioChunk 0 (silence 8320) (loaded broken_session)))
  = None.
Proof.
  destruct (processAudioChunk_engine_rejects 0 (silence 8320)
              (loaded broken_session) broken_session "inference failed"
              eq_refl) as (H1 & H2 & _).
  - vm_compute. discriminate.
  - reflexivity.
  - split; [exact H1 | exact H2].
Defined.

(** A call on an instance without a session throws before it touches
    anything. *)
Lemma processAudioChunk_not_loaded
  {M : MathExp} (now : Z) (chunk : list float) (s : SDK) :
  session s = None ->
  processAudioChunk now chunk s = (s, Throw ModelNotLoaded).
Proof. intros H. unfold processAudioChunk. now rewrite H. Qed.

(** ** Streaming: the length of the buffer *)

(** C3 as stated fails: one call consumes one window, so after a chunk of
    20000 samples the call has run its inference and 15840 samples, more
    than a window, stay buffered. *)
Lemma long_chunk_leaves_full_window :
  List.length (inferenceLog
    (fst (processAudioChunk 0 (silence 20000) (loaded (steady_session [])))))
  = 1%nat /\
  is_ok (snd (processAudioChunk 0 (silence 20000) (loaded (steady_session []))))
  = true /\
  ~ len (audioBuffer
      (fst (processAudioChunk 0 (silence 20000) (loaded (steady_session [])))))
    < 8320.
Proof.
  vm_compute. repeat split; discriminate.
Qed.

(** One call, whatever it does, keeps a buffer shorter than a window that
    way when the chunk is at most a hop long. *)
Lemma processAudioChunk_short_chunk
  {M : MathExp} (now : Z) (chunk : list float) (s : SDK) :
  len (audioBuffer s) < bufferLen ->
  len chunk <= bufferOfs ->
  0 <= len (audioBuffer (fst (processAudioChunk now chunk s))) < bufferLen.
Proof.
  intros Hb Hc. split; [apply len_nonneg|].
  destruct (session s) as [sess|] eqn:Hs.
  2:{ rewrite (processAudioChunk_not_loaded now chunk s Hs). exact Hb. }
  destruct (Z_lt_le_dec (len (audioBuffer s) + len chunk) bufferLen) as [Hl|Hl].
  - rewrite (processAudioChunk_filling now chunk s sess Hs Hl). simpl.
    now rewrite len_appended.
  - rewrite (processAudioChunk_ready_length now chunk s sess Hs Hl). lia.
Qed.

(** C3, amended.  In every sequence of [processAudioChunk] calls whose
    chunks hold at most [bufferOfs] = 4160 samples each, started with fewer
    than [bufferLen] = 8320 samples buffered, the buffer holds fewer than
    8320 samples (and never a negative number) after every call, a call
    that consumed a window included.  (A call that consumes a window leaves
    old length + chunk length - 4160 samples: see
    [processAudioChunk_ready_length].) *)
Theorem streaming_buffer_below_window
  {M : MathExp} (now : Z) (chunks : list (list float)) (s : SDK) :
  len (audioBuffer s) < 8320 ->
  Forall (fun c => len c <= 4160) chunks ->
  Forall (fun out : SDK * outcome Result =>
            0 <= len (audioBuffer (fst out)) < 8320)
         (feed_chunks now chunks s).
Proof.
  intros Hb Hc. revert now s Hb.
  induction Hc as [|c chunks Hc _ IH]; intros now s Hb; simpl.
  - constructor.
  - pose proof (processAudioChunk_short_chunk now c s Hb Hc) as H.
    constructor; [exact H|]. apply IH. exact (proj2 H).
Qed.

Lemma streaming_buffer_below_window_witness :
  Forall (fun out : SDK * outcome Result =>
            0 <= len (audioBuffer (fst out)) < 8320)
         (feed_chunks 0 [silence 4160; silence 4160; silence 100; silence 4160]
            (loaded (steady_session []))).
Proof.
  apply streaming_buffer_below_window.
  - vm_compute. reflexivity.
  - repeat constructor; vm_compute; discriminate.
Defined.

(** ** The name table and the shape of frames *)

Lemma map_range_names :
  map (name_at blendshapeNames) (range (Z.min (len blendshapeNames) skinSize))
  = blendshapeNames.
Proof. vm_compute. reflexivity. Qed.

Lemma parseOutputs_names
  {M : MathExp} (sess : Session) (now : Z) (outputs : TensorMap) (r : Result) :
  parseOutputs sess now outputs = Ok r ->
  map bs_name (blendshapes r) = blendshapeNames.
Proof.
  unfold parseOutputs.
  destruct (lookup (first_name (outputNames sess)) outputs) as [t|];
    cbn [bind require]; [|discriminate].
  set (bs := map _ (range (Z.min (len blendshapeNames) skinSize))).
  intros H. injection H as <-. cbn [blendshapes]. subst bs.
  rewrite map_map. cbn [bs_name]. exact map_range_names.
Qed.

(** C5 as stated fails on the count: the table holds 52 names, not 50. *)
Lemma blendshape_table_is_not_50 :
  List.length blendshapeNames <> 50%nat /\ Z.min (len blendshapeNames) skinSize <> 50.
Proof. vm_compute. split; discriminate. Qed.

(** C5, amended.  The name table holds exactly 52 names, and this is the
    cardinality of every frame: a decoded frame carries min(52, skinSize) =
    52 (name, value) pairs and the empty result carries 52 pairs, both
    named by the table in the table's order. *)
Theorem blendshape_table_cardinality
  {M : MathExp} (sess : Session) (now : Z) (outputs : TensorMap) (t : Tensor) :
  lookup (first_name (outputNames sess)) outputs = Some t ->
  List.length blendshapeNames = 52%nat /\
  Z.min (len blendshapeNames) skinSize = 52 /\
  (exists r, parseOutputs sess now outputs = Ok r /\
             map bs_name (blendshapes r) = blendshapeNames /\
             List.length (blendshapes r) = 52%nat) /\
  map bs_name (blendshapes (getEmptyResult now)) = blendshapeNames /\
  List.length (blendshapes (getEmptyResult now)) = 52%nat /\
  aggregateResults now [] = Ok (getEmptyResult now).
Proof.
  intros Ht. split; [reflexivity|]. split; [reflexivity|]. split.
  - destruct (parseOutputs sess now outputs) as [r|e] eqn:E.
    + exists r. pose proof (parseOutputs_names sess now outputs r E) as N.
      repeat split; auto.
      rewrite <- (length_map bs_name), N. reflexivity.
    + unfold parseOutputs in E. rewrite Ht in E. discriminate.
  - split; [|split; reflexivity].
    unfold getEmptyResult. cbn [blendshapes]. rewrite map_map. cbn [bs_name].
    apply map_id.
Qed.

Lemma blendshape_table_cardinality_witness :
  exists r,
    parseOutputs (steady_session []) 0
      [("output"%string, mkTensor "float32" [] [1; 0])] = Ok r /\
    List.length (blendshapes r) = 52%nat.
Proof.
  destruct (blendshape_table_cardinality (steady_session []) 0
              [("output"%string, mkTensor "float32" [] [1; 0])]
              (mkTensor "float32" [] [1; 0]) eq_refl)
    as (_ & _ & (r & Hr & _ & Hl) & _).
  exists r. split; assumption.
Defined.

(** ** Mismatched cardinalities in the smoother and the aggregator *)

Lemma smoothBlendshapes_mismatch (factor : float) (prev curr : list Blendshape) :
  List.length prev <> List.length curr ->
  smoothBlendshapes factor (Some prev) curr = curr.
Proof.
  intros H. unfold smoothBlendshapes.
  destruct (Nat.eqb_spec (List.length prev) (List.length curr)); [contradiction|].
  reflexivity.
Qed.

(** C6 as stated fails for the aggregator: over two frames of which the
    second has fewer blendshapes than the first it throws a [TypeError]
    (the read [r.blendshapes[i].value] on a missing entry). *)
Lemma aggregateResults_mismatch_throws :
  aggregateResults 0
    [ mkResult [mkBlendshape "jawOpen" Num.one] Num.zero None (Some 0) None;
      mkResult [] Num.zero None (Some 1) None ]
  = Throw TypeError.
Proof. reflexivity. Qed.

Lemma forallb_eq_in {A : Type} (f g : A -> bool) (l : list A) :
  (forall a, In a l -> f a = g a) -> forallb f l = forallb g l.
Proof.
  induction l as [|a l IH]; intros H; simpl; [reflexivity|].
  rewrite (H a (or_introl eq_refl)), IH; [reflexivity|].
  intros b Hb. apply H. now right.
Qed.

Lemma mapM_is_ok {A B : Type} (f : A -> outcome B) (l : list A) :
  is_ok (mapM f l) = forallb (fun a => is_ok (f a)) l.
Proof.
  induction l as [|a l IH]; simpl; [reflexivity|].
  destruct (f a); simpl; [|reflexivity].
  rewrite <- IH. destruct (mapM f l); reflexivity.
Qed.

Lemma foldM_require_is_ok {A B C : Type} (g : A -> option C) (h : B -> C -> B)
  (l : list A) (acc : B) :
  is_ok (foldM (fun acc r => b <- require (g r) ;; Ok (h acc b)) l acc)
  = forallb (fun r => match g r with Some _ => true | None => false end) l.
Proof.
  revert acc. induction l as [|a l IH]; intros acc; simpl; [reflexivity|].
  destruct (g a); simpl; [apply IH|reflexivity].
Qed.

Lemma at_index_defined {A : Type} (l : list A) (i : Z) :
  (match at_index l i with Some _ => true | None => false end)
  = (0 <=? i) && (i <? len l).
Proof.
  unfold at_index, len.
  destruct (Z.ltb_spec i 0) as [Hi|Hi].
  - destruct (Z.leb_spec 0 i); [lia|reflexivity].
  - destruct (Z.leb_spec 0 i); [|lia]. simpl.
    destruct (nth_error l (Z.to_nat i)) eqn:E.
    + assert (Z.to_nat i < List.length l)%nat
        by (apply nth_error_Some; congruence).
      symmetry. apply Z.ltb_lt. lia.
    + apply nth_error_None in E. symmetry. apply Z.ltb_ge. lia.
Qed.

Lemma in_range (n i : Z) : In i (range n) <-> 0 <= i < n.
Proof.
  unfold range. rewrite in_map_iff. split.
  - intros (k & <- & Hk). apply in_seq in Hk. lia.
  - intros H. exists (Z.to_nat i). split; [lia|]. apply in_seq. lia.
Qed.

(** When the aggregator completes on a non-empty list. *)
Lemma aggregateResults_is_ok (now : Z) (r0 : Result) (rest : list Result) :
  is_ok (aggregateResults now (r0 :: rest)) = true <->
  Forall (fun r => (List.length (blendshapes r0) <= List.length (blendshapes r))%nat)
         rest.
Proof.
  unfold aggregateResults.
  set (f := fun i : Z => _).
  assert (E : is_ok (mapM f (range (len (blendshapes r0))))
              = forallb (fun i => forallb (fun r => i <? len (blendshapes r))
                                          (r0 :: rest))
                        (range (len (blendshapes r0)))).
  { rewrite mapM_is_ok. apply forallb_eq_in. intros i Hi. subst f. cbv beta.
    apply in_range in Hi.
    pose proof (foldM_require_is_ok (fun r => at_index (blendshapes r) i)
                  (fun acc b => Num.add acc (bs_value b)) (r0 :: rest) Num.zero) as F.
    destruct (foldM _ (r0 :: rest) Num.zero) as [sum|e]; cbn [bind].
    - pose proof (at_index_defined (blendshapes r0) i) as D.
      destruct (at_index (blendshapes r0) i);
        [|destruct (Z.leb_spec 0 i); destruct (Z.ltb_spec i (len (blendshapes r0)));
          simpl in D; try discriminate; lia].
      cbn [require bind is_ok]. cbn [is_ok] in F. rewrite F.
      apply forallb_eq_in. intros r _. rewrite at_index_defined.
      destruct (Z.leb_spec 0 i); [reflexivity|lia].
    - cbn [is_ok] in *. rewrite F.
      apply forallb_eq_in. intros r _. rewrite at_index_defined.
      destruct (Z.leb_spec 0 i); [reflexivity|lia]. }
  destruct (mapM f (range (len (blendshapes r0)))) as [avg|e]; cbn [bind is_ok];
    cbn [is_ok] in E; split.
  - intros _. symmetry in E. rewrite forallb_forall in E.
    apply Forall_forall. intros r Hr.
    destruct (Nat.le_gt_cases (List.length (blendshapes r0))
                (List.length (blendshapes r))) as [|Hlt]; [assumption|exfalso].
    assert (I : In (len (blendshapes r)) (range (len (blendshapes r0))))
      by (apply in_range; unfold len; lia).
    specialize (E _ I). rewrite forallb_forall in E. specialize (E r (or_intror Hr)).
    apply Z.ltb_lt in E. lia.
  - reflexivity.
  - discriminate.
  - intros HF. exfalso. rewrite Forall_forall in HF.
    assert (true = false) as X; [|discriminate X].
    rewrite E. symmetry. apply forallb_forall. intros i Hi. apply in_range in Hi.
    apply forallb_forall. intros r [<-|Hr]; apply Z.ltb_lt; [lia|].
    specialize (HF r Hr). unfold len in *. lia.
Qed.

(** C6, amended.  The smoother, given a previous frame of another
    cardinality (or none), returns the newer frame unmodified and never
    throws.  The aggregator has no such fallback: over a non-empty list it
    completes exactly when no frame has fewer blendshapes than the first
    one (in particular when all cardinalities agree), and on the empty list
    it returns the empty result. *)
Theorem mismatch_handling
  (factor : float) (prev curr : list Blendshape) (now : Z)
  (r0 : Result) (rest : list Result) :
  List.length prev <> List.length curr ->
  smoothBlendshapes factor (Some prev) curr = curr /\
  smoothBlendshapes factor None curr = curr /\
  aggregateResults now [] = Ok (getEmptyResult now) /\
  (is_ok (aggregateResults now (r0 :: rest)) = true <->
   Forall (fun r => (List.length (blendshapes r0) <= List.length (blendshapes r))%nat)
          rest).
Proof.
  intros H. split; [now apply smoothBlendshapes_mismatch|].
  split; [reflexivity|]. split; [reflexivity|].
  apply aggregateResults_is_ok.
Qed.

Lemma mismatch_handling_witness :
  smoothBlendshapes Num.lit_0_3 (Some [mkBlendshape "jawOpen" Num.one]) []
  = [].
Proof.
  refine (proj1 (mismatch_handling Num.lit_0_3 [mkBlendshape "jawOpen" Num.one] []
                   0 (getEmptyResult 0) [] _)).
  simpl. discriminate.
Defined.

(** ** Batch mode: the windows of [processAudioFile] *)

Section Batch.

Context {M : MathExp}.

Lemma batch_loop_stop (fuel : nat) (clock : nat -> Z) (audio : list float)
  (hop i : Z) (acc : list Result) (s : SDK) :
  len audio - bufferLen <= i ->
  batch_loop fuel clock audio hop i acc s = (s, Ok acc).
Proof.
  intros H. destruct fuel; simpl;
    destruct (Z.ltb_spec i (len audio - bufferLen)); try lia; reflexivity.
Qed.

Lemma batch_loop_step (fuel : nat) (clock : nat -> Z) (audio : list float)
  (hop i : Z) (acc : list Result) (s : SDK) :
  i < len audio - bufferLen ->
  batch_loop (S fuel) clock audio hop i acc s
  = match runInference (clock (List.length acc)) (slice audio i (i + bufferLen)) s with
    | (s', Throw e) => (s', Throw e)
    | (s', Ok result) =>
        batch_loop fuel clock audio hop (i + hop) (acc ++ [result]) s'
    end.
Proof.
  intros H. simpl.
  destruct (Z.ltb_spec i (len audio - bufferLen)); [reflexivity|lia].
Qed.

(** The loop stops by its own test: from a counter [i >= 0] it takes at
    most [len audio - bufferLen - i] turns, so the budget [length audio]
    that [processAudioFile] gives it is never used up. *)
Lemma batch_loop_within_budget (fuel : nat) (clock : nat -> Z)
  (audio : list float) (hop i : Z) (acc : list Result) (s : SDK) :
  0 < hop ->
  (Z.to_nat (len audio - bufferLen - i) <= fuel)%nat ->
  snd (batch_loop fuel clock audio hop i acc s) <> Throw LoopBudget.
Proof.
  intros Hhop. revert i acc s.
  induction fuel as [|fuel IH]; intros i acc s Hf.
  - rewrite batch_loop_stop by lia. discriminate.
  - destruct (Z_lt_le_dec i (len audio - bufferLen)) as [Hi|Hi].
    + rewrite batch_loop_step by exact Hi.
      unfold runInference.
      destruct (session s) as [sess|]; [|discriminate].
      destruct (run sess (inferenceLog s) _) as [outs|reason]; [|discriminate].
      unfold parseOutputs.
      destruct (lookup (first_name (outputNames sess)) outs); cbn [require bind];
        [|discriminate].
      apply IH. lia.
    + rewrite batch_loop_stop by exact Hi. discriminate.
Qed.

Lemma aggregateResults_frameCount (now : Z) (r0 : Result) (rest : list Result)
  (a : Result) :
  aggregateResults now (r0 :: rest) = Ok a ->
  frameCount a = Some (len (r0 :: rest)) /\
  eyes a = eyes (last (r0 :: rest) r0) /\
  List.length (blendshapes a) = List.length (blendshapes r0).
Proof.
  unfold aggregateResults. set (f := fun i : Z => _).
  destruct (mapM f (range (len (blendshapes r0)))) as [avg|e] eqn:E;
    cbn [bind]; [|discriminate].
  intros H. injection H as <-. cbn [frameCount eyes blendshapes].
  repeat split.
  assert (L : forall (l : list Z) out, mapM f l = Ok out ->
                                      List.length out = List.length l).
  { induction l as [|x l IH]; intros out; simpl.
    - intros [= <-]. reflexivity.
    - destruct (f x); cbn [bind]; [|discriminate].
      destruct (mapM f l); cbn [bind]; [|discriminate].
      intros [= <-]. simpl. f_equal. now apply IH. }
  rewrite (L _ _ E). unfold range, len.
  rewrite length_map, length_seq. lia.
Qed.

(** The only error of the aggregator is the [TypeError] of a missing
    blendshape entry. *)
Lemma aggregateResults_error (now : Z) (results : list Result) (e : error) :
  aggregateResults now results = Throw e -> e = TypeError.
Proof.
  destruct results as [|r0 rest]; [discriminate|].
  unfold aggregateResults. set (f := fun i : Z => _).
  assert (Hf : forall i e', f i = Throw e' -> e' = TypeError).
  { intros i e'. subst f. cbv beta.
    set (g := fun (acc : float) (r : Result) => _).
    assert (Hg : forall l acc, foldM g l acc = Throw e' -> e' = TypeError).
    { induction l as [|r l IH]; intros acc; simpl; [discriminate|].
      subst g. cbv beta.
      destruct (at_index (blendshapes r) i); cbn [require bind].
      - apply IH.
      - intros [= <-]. reflexivity. }
    destruct (foldM g (r0 :: rest) Num.zero) eqn:E; cbn [bind].
    - destruct (at_index (blendshapes r0) i); cbn [require bind];
        [discriminate|intros [= <-]; reflexivity].
    - intros [= <-]. exact (Hg _ _ E). }
  assert (Hm : forall l, mapM f l = Throw e -> e = TypeError).
  { induction l as [|x l IH]; simpl; [discriminate|].
    destruct (f x) eqn:E; cbn [bind].
    - destruct (mapM f l); cbn [bind]; [discriminate|].
      intros [= <-]. now apply IH.
    - intros [= <-]. exact (Hf _ _ E). }
  destruct (mapM f (range (len (blendshapes r0)))) eqn:E; cbn [bind];
    [discriminate|].
  intros [= <-]. exact (Hm _ E).
Qed.

End Batch.

Lemma window_count_spec (n k : Z) :
  0 <= k -> (k < window_count n <-> k * bufferOfs + bufferLen < n).
Proof.
  intros Hk. unfold window_count, bufferOfs, bufferLen.
  destruct (Z.leb_spec (n - 8320) 0); [lia|].
  pose proof (Z.div_mod (n - 8320 - 1) 4160 ltac:(lia)) as D.
  pose proof (Z.mod_pos_bound (n - 8320 - 1) 4160 ltac:(lia)) as B.
  lia.
Qed.

Lemma window_count_step (n i : Z) :
  i < n - bufferLen ->
  window_count (n - i) = 1 + window_count (n - (i + bufferOfs)).
Proof.
  intros Hi. unfold window_count, bufferOfs, bufferLen in *.
  destruct (Z.leb_spec (n - i - 8320) 0); [lia|].
  destruct (Z.leb_spec (n - (i + 4160) - 8320) 0).
  - rewrite Z.div_small by lia. reflexivity.
  - replace (n - i - 8320 - 1) with (n - (i + 4160) - 8320 - 1 + 1 * 4160) by lia.
    rewrite Z.div_add by lia. lia.
Qed.

Lemma runInference_answers {M : MathExp} (sess : Session) (now : Z)
  (chunk : list float) (s : SDK) :
  answers sess -> session s = Some sess ->
  exists r,
    runInference now chunk s = (log_call s (build_feeds sess chunk), Ok r) /\
    List.length (blendshapes r) = 52%nat.
Proof.
  intros Hans Hs. unfold runInference. rewrite Hs.
  destruct (Hans (inferenceLog s) (build_feeds sess chunk))
    as (outs & t & -> & Hlook).
  destruct (parseOutputs sess now outs) as [r|e] eqn:E.
  - exists r. split; [reflexivity|].
    rewrite <- (length_map bs_name), (parseOutputs_names _ _ _ _ E). reflexivity.
  - unfold parseOutputs in E. rewrite Hlook in E. discriminate.
Qed.

(** With an engine that answers, the loop started at offset [i] collects
    one frame per offset [i, i + bufferOfs, ...] below
    [len audio - bufferLen], each from one inference call. *)
Lemma batch_loop_count {M : MathExp} (sess : Session) (clock : nat -> Z)
  (audio : list float) :
  answers sess ->
  forall (fuel : nat) (i : Z) (acc : list Result) (s : SDK),
    session s = Some sess ->
    (Z.to_nat (len audio - bufferLen - i) <= fuel)%nat ->
    Forall (fun r => List.length (blendshapes r) = 52%nat) acc ->
    exists s' rs,
      batch_loop fuel clock audio bufferOfs i acc s = (s', Ok rs) /\
      len rs = len acc + window_count (len audio - i) /\
      len (inferenceLog s') = len (inferenceLog s) + window_count (len audio - i) /\
      Forall (fun r => List.length (blendshapes r) = 52%nat) rs.
Proof.
  intros Hans. induction fuel as [|fuel IH]; intros i acc s Hs Hf Hacc.
  - rewrite batch_loop_stop by lia. exists s, acc.
    split; [reflexivity|]. unfold window_count.
    destruct (Z.leb_spec (len audio - i - bufferLen) 0); [|lia].
    repeat split; try lia. exact Hacc.
  - destruct (Z_lt_le_dec i (len audio - bufferLen)) as [Hi|Hi].
    + rewrite batch_loop_step by exact Hi.
      destruct (runInference_answers sess (clock (List.length acc))
                  (slice audio i (i + bufferLen)) s Hans Hs) as (r & -> & Hr52).
      destruct (IH (i + bufferOfs) (acc ++ [r])
                  (log_call s (build_feeds sess (slice audio i (i + bufferLen)))))
        as (s' & rs & E & Hr & Hl & Hall).
      * exact Hs.
      * unfold bufferOfs. lia.
      * apply Forall_app. split; [exact Hacc|]. constructor; [exact Hr52|constructor].
      * exists s', rs. split; [exact E|].
        rewrite (window_count_step (len audio) i Hi).
        unfold log_call in Hl. cbn [inferenceLog] in Hl.
        rewrite len_app in Hr. rewrite len_app in Hl.
        change (len [r]) with 1 in Hr.
        change (len [build_feeds sess (slice audio i (i + bufferLen))]) with 1 in Hl.
        repeat split; try lia. exact Hall.
    + rewrite batch_loop_stop by exact Hi. exists s, acc.
      split; [reflexivity|]. unfold window_count.
      destruct (Z.leb_spec (len audio - i - bufferLen) 0); [|lia].
      repeat split; try lia. exact Hacc.
Qed.

(** With an engine that answers, [processAudioFile] runs one inference per
    offset [k * bufferOfs] with [k * bufferOfs + bufferLen] strictly below
    the number of samples, and reports that many frames (the empty result,
    which has no [frameCount], when there is none). *)
Lemma processAudioFile_window_count {M : MathExp} (sess : Session)
  (clock : nat -> Z) (audio : list float) (s : SDK) :
  answers sess -> session s = Some sess ->
  let out := processAudioFile clock (Float32Samples audio) s in
  len (inferenceLog (fst out)) = len (inferenceLog s) + window_count (len audio) /\
  exists r,
    snd out = Ok r /\
    frameCount r = if window_count (len audio) =? 0 then None
                   else Some (window_count (len audio)).
Proof.
  intros Hans Hs. cbv zeta. unfold processAudioFile. rewrite Hs. cbn [float32_view].
  destruct (batch_loop_count sess clock audio Hans (List.length audio) 0 [] s Hs)
    as (s' & rs & E & Hr & Hl & Hall).
  { unfold len, bufferLen. lia. }
  { constructor. }
  rewrite E. cbn [fst snd]. rewrite Z.sub_0_r in Hr, Hl.
  split; [exact Hl|]. change (len []) with 0 in Hr. rewrite Z.add_0_l in Hr.
  destruct rs as [|r0 rest].
  - rewrite <- Hr. eexists. split; reflexivity.
  - assert (S : is_ok (aggregateResults (clock (List.length (r0 :: rest)))
                         (r0 :: rest)) = true).
    { apply aggregateResults_is_ok. inversion Hall as [|? ? H0 Hrest]; subst.
      rewrite H0. eapply Forall_impl; [|exact Hrest].
      intros a Ha. cbv beta in Ha. rewrite Ha. constructor. }
    destruct (aggregateResults (clock (List.length (r0 :: rest))) (r0 :: rest))
      as [a|e] eqn:Ea; [|discriminate].
    exists a. split; [reflexivity|].
    destruct (aggregateResults_frameCount _ _ _ _ Ea) as (Hfc & _).
    rewrite Hfc, Hr.
    destruct (Z.eqb_spec (window_count (len audio)) 0) as [Z0|]; [|reflexivity].
    exfalso. rewrite <- Hr in Z0. unfold len in Z0. simpl in Z0. lia.
Qed.

(** The typed-array view is refused for one of two reasons. *)
Lemma float32_view_errors (input : AudioInput) (e : error) :
  float32_view input = Throw e ->
  (e = RangeError /\ input <> Unsupported) \/
  (e = InvalidAudio /\ input = Unsupported).
Proof.
  destruct input as [o l w|l w|a|]; cbn [float32_view].
  - destruct (o mod 4 =? 0); [discriminate|].
    intros [= <-]. left. split; [reflexivity|discriminate].
  - destruct (l mod 4 =? 0); [discriminate|].
    intros [= <-]. left. split; [reflexivity|discriminate].
  - discriminate.
  - intros [= <-]. right. split; reflexivity.
Qed.

(** [processAudioFile] never reports the iteration budget of the model. *)
Lemma processAudioFile_completes
  {M : MathExp} (clock : nat -> Z) (input : AudioInput) (s : SDK) :
  snd (processAudioFile clock input s) <> Throw LoopBudget.
Proof.
  unfold processAudioFile.
  destruct (session s); [|discriminate].
  destruct (float32_view input) as [audio|e0] eqn:Ev;
    [|cbn [snd]; destruct (float32_view_errors input e0 Ev) as [[-> _]|[-> _]];
      discriminate].
  pose proof (batch_loop_within_budget (List.length audio) clock audio bufferOfs
                0 [] s eq_refl) as B.
  destruct (batch_loop (List.length audio) clock audio bufferOfs 0 [] s)
    as [s1 [rs|e]]; simpl in *.
  - intros H. apply aggregateResults_error in H. discriminate.
  - intros [= ->]. apply B; [unfold len, bufferLen; lia|reflexivity].
Qed.

(** C1: with exactly [bufferLen + bufferOfs] = 12480 samples the loop test
    [i < audioData.length - bufferLen] admits the offset 0 and refuses the
    offset 4160, although 4160 + 8320 <= 12480: one inference is run, over
    the samples [0, 8320), and a successful call reports [frameCount] 1,
    not 2. *)
Theorem processAudioFile_window_plus_hop
  {M : MathExp} (clock : nat -> Z) (samples : list float) (s : SDK)
  (sess : Session) :
  session s = Some sess ->
  len samples = 12480 ->
  inferenceLog (fst (processAudioFile clock (Float32Samples samples) s))
  = inferenceLog s ++ [build_feeds sess (slice samples 0 8320)] /\
  (forall r, snd (processAudioFile clock (Float32Samples samples) s) = Ok r ->
             frameCount r = Some 1) /\
  is_ok (snd (processAudioFile clock (Float32Samples samples) s))
  = is_ok (snd (runInference (clock 0%nat) (slice samples 0 8320) s)).
Proof.
  intros Hs Hlen. unfold processAudioFile. rewrite Hs. cbn [float32_view].
  destruct (List.length samples) as [|fuel] eqn:Ef;
    [unfold len in Hlen; rewrite Ef in Hlen; discriminate|].
  rewrite batch_loop_step by (rewrite Hlen; reflexivity).
  cbn [List.length]. change (0 + bufferLen) with 8320.
  pose proof (runInference_log (clock 0%nat) (slice samples 0 8320) s sess Hs) as L.
  destruct (runInference (clock 0%nat) (slice samples 0 8320) s) as [s1 [r|e]];
    cbn [fst snd] in *.
  - rewrite batch_loop_stop by (rewrite Hlen; unfold bufferOfs, bufferLen; lia).
    cbn [fst snd app]. split; [exact L|]. split.
    + intros a Ha. apply aggregateResults_frameCount in Ha.
      destruct Ha as (Ha & _). rewrite Ha. reflexivity.
    + cbn [is_ok]. apply aggregateResults_is_ok. constructor.
  - split; [exact L|]. split; [discriminate|reflexivity].
Qed.

Lemma processAudioFile_window_plus_hop_witness :
  exists r,
    snd (processAudioFile no_clock (Float32Samples (silence 12480))
           (loaded (steady_session (silence 169)))) = Ok r /\
    frameCount r = Some 1.
Proof.
  destruct (snd (processAudioFile no_clock (Float32Samples (silence 12480))
                   (loaded (steady_session (silence 169))))) as [r|e] eqn:E.
  - exists r. split; [reflexivity|].
    refine (proj1 (proj2 (processAudioFile_window_plus_hop no_clock
                            (silence 12480) (loaded (steady_session (silence 169)))
                            (steady_session (silence 169)) eq_refl _)) r E).
    vm_compute. reflexivity.
  - exfalso. vm_compute in E. discriminate.
Defined.

(** With exactly one window of samples the batch loop runs no inference at
    all, where the streaming path runs one. *)
Lemma processAudioFile_exact_window
  {M : MathExp} (clock : nat -> Z) (samples : list float) (s : SDK)
  (sess : Session) :
  session s = Some sess ->
  len samples = 8320 ->
  processAudioFile clock (Float32Samples samples) s
  = (s, Ok (getEmptyResult (clock 0%nat))).
Proof.
  intros Hs Hlen. unfold processAudioFile. rewrite Hs. cbn [float32_view].
  rewrite batch_loop_stop by (rewrite Hlen; unfold bufferLen; lia).
  reflexivity.
Qed.

(** ** Rounding never invents a [NaN] *)

Section Rounding_facts.

Variables prec emax : Z.

Lemma iter_pos_invariant {A : Type} (P : A -> Prop) (f : A -> A) :
  (forall x, P x -> P (f x)) ->
  forall n x, P x -> P (iter_pos f n x).
Proof.
  intros Hf. induction n as [n IH|n IH|]; intros x Hx; simpl; auto.
Qed.

Lemma shr_1_nonneg (mrs : shr_record) : 0 <= shr_m mrs -> 0 <= shr_m (shr_1 mrs).
Proof.
  destruct mrs as [m r s]. simpl.
  destruct m as [|[p|p|]|p]; simpl; lia.
Qed.

Lemma shr_nonneg (mrs : shr_record) (e n : Z) :
  0 <= shr_m mrs -> 0 <= shr_m (fst (shr mrs e n)).
Proof.
  intros H. unfold shr. destruct n as [|p|p]; simpl; auto.
  apply (iter_pos_invariant (fun x => 0 <= shr_m x)); auto using shr_1_nonneg.
Qed.

Lemma shr_fexp_nonneg (m e : Z) (l : location) :
  0 <= m -> 0 <= shr_m (fst (shr_fexp prec emax m e l)).
Proof.
  intros H. unfold shr_fexp. apply shr_nonneg.
  destruct l as [|[| |]]; simpl; exact H.
Qed.

Lemma round_nearest_even_nonneg (m : Z) (l : location) :
  0 <= m -> 0 <= round_nearest_even m l.
Proof.
  intros H. destruct l as [|[| |]]; simpl; try lia.
  destruct (Z.even m); lia.
Qed.

Lemma binary_round_aux_not_nan (sx : bool) (mx ex : Z) (lx : location) :
  0 <= mx -> binary_round_aux prec emax sx mx ex lx <> S754_nan.
Proof.
  intros H. unfold binary_round_aux.
  pose proof (shr_fexp_nonneg mx ex lx H) as H1.
  destruct (shr_fexp prec emax mx ex lx) as [mrs' e']. simpl in H1.
  pose proof (shr_fexp_nonneg
                (round_nearest_even (shr_m mrs') (loc_of_shr_record mrs')) e'
                loc_Exact (round_nearest_even_nonneg _ _ H1)) as H2.
  destruct (shr_fexp prec emax _ e' loc_Exact) as [mrs'' e'']. simpl in H2.
  destruct (shr_m mrs'') as [|p|p]; [discriminate| |lia].
  destruct (e'' <=? emax - prec); discriminate.
Qed.

Lemma binary_normalize_not_nan (m e : Z) (szero : bool) :
  binary_normalize prec emax m e szero <> S754_nan.
Proof.
  unfold binary_normalize, binary_round.
  destruct m as [|p|p]; [discriminate| |];
    destruct (shl_align _ _ _) as [mz ez]; apply binary_round_aux_not_nan; lia.
Qed.

End Rounding_facts.

Lemma is_nan_false (x : float) : x <> S754_nan -> Num.is_nan x = false.
Proof. destruct x; simpl; congruence. Qed.

Lemma add_one_not_nan (x : float) :
  Num.is_nan x = false -> Num.is_nan (Num.add Num.one x) = false.
Proof.
  destruct x as [s|s| |s m e]; try reflexivity; try discriminate.
  intros _. apply is_nan_false. apply binary_normalize_not_nan.
Qed.

Lemma div_one_not_nan (x : float) :
  Num.is_nan x = false -> Num.is_nan (Num.div Num.one x) = false.
Proof.
  destruct x as [s|s| |s m e]; try reflexivity; try discriminate.
  intros _. apply is_nan_false. unfold Num.div, Num.one, SFdiv.
  destruct (SFdiv_core_binary _ _ _ _ _ _) as [[mz ez] lz] eqn:E.
  apply binary_round_aux_not_nan.
  unfold SFdiv_core_binary in E.
  match type of E with
  | context [Z.div_eucl ?a ?b] =>
      pose proof (Z.div_pos a b) as Hq;
      unfold Z.div in Hq; destruct (Z.div_eucl a b) as [q r] eqn:Eq
  end.
  injection E as <- _ _. apply Hq; [|lia].
  destruct (_ - _ - _) as [|p|p]; try lia. apply Z.shiftl_nonneg. lia.
Qed.

Lemma mul_lit_not_nan (x : float) :
  Num.is_nan x = false -> Num.is_nan (Num.mul x Num.lit_0_1) = false.
Proof.
  destruct x as [s|s| |s m e]; try reflexivity; try discriminate.
  intros _. apply is_nan_false. apply binary_round_aux_not_nan. lia.
Qed.

Lemma opp_not_nan (x : float) :
  Num.is_nan x = false -> Num.is_nan (Num.opp x) = false.
Proof. destruct x; simpl; congruence. Qed.

Lemma or_zero_not_nan (v : option float) : Num.is_nan (or_zero v) = false.
Proof. destruct v as [[s|s| |s m e]|]; reflexivity. Qed.

(** ** The decoder *)

Section Decoder.

Context {M : MathExp}.

Lemma sigmoid_not_nan (x : float) :
  Num.is_nan x = false -> Num.is_nan (sigmoid x) = false.
Proof.
  intros H. unfold sigmoid.
  apply div_one_not_nan, add_one_not_nan, exp_number, opp_not_nan, H.
Qed.

Lemma sigmoid_nan : sigmoid Num.nan = Num.nan.
Proof. unfold sigmoid. cbn [Num.opp SFopp Num.nan]. fold Num.nan. now rewrite exp_nan. Qed.

Lemma sigmoid_zero : sigmoid (Num.mul Num.zero Num.lit_0_1)
                     = S754_finite false 4503599627370496 (-53).
Proof.
  unfold sigmoid. change (Num.opp (Num.mul Num.zero Num.lit_0_1)) with (S754_zero true).
  rewrite exp_zero. reflexivity.
Qed.

Lemma ltb_leb (a b : float) : Num.ltb a b = true -> Num.leb a b = true.
Proof.
  unfold Num.ltb, Num.leb, SFltb, SFleb.
  destruct (SFcompare a b) as [[| |]|]; congruence.
Qed.

Lemma min_one_cases (v : float) :
  Num.is_nan v = false ->
  (Num.min Num.one v = v /\ Num.ltb v Num.one = true) \/
  Num.min Num.one v = Num.one.
Proof.
  intros Hv. unfold Num.min. rewrite Hv.
  change (Num.is_nan Num.one) with false. cbn [orb].
  destruct (Num.ltb v Num.one) eqn:L1; [left; split; reflexivity|right].
  destruct (Num.ltb Num.one v); [reflexivity|].
  destruct v as [[|]|s| |s m e]; try reflexivity. discriminate.
Qed.

Lemma max_zero_cases (w : float) :
  (Num.max Num.zero w = w /\ Num.ltb Num.zero w = true) \/
  Num.max Num.zero w = Num.zero \/ Num.max Num.zero w = Num.nan.
Proof.
  unfold Num.max. change (Num.is_nan Num.zero) with false. cbn [orb].
  destruct (Num.is_nan w); [right; right; reflexivity|].
  destruct (Num.ltb Num.zero w) eqn:L1; [left; split; reflexivity|right; left].
  destruct (Num.ltb w Num.zero); reflexivity.
Qed.

Lemma clamp01_in_unit (v : float) :
  Num.is_nan v = false -> Num.in_unit (clamp01 v) = true.
Proof.
  intros Hv. unfold clamp01.
  destruct (min_one_cases v Hv) as [(-> & L1)| ->].
  - destruct (max_zero_cases v) as [(-> & L0)|[-> | E]].
    + unfold Num.in_unit. now rewrite (ltb_leb _ _ L0), (ltb_leb _ _ L1).
    + reflexivity.
    + exfalso. unfold Num.max in E. rewrite Hv in E.
      change (Num.is_nan Num.zero) with false in E. cbn [orb] in E.
      destruct (Num.ltb Num.zero v);
        [subst v; discriminate|destruct (Num.ltb v Num.zero); discriminate].
  - reflexivity.
Qed.

Lemma clamp01_nan : clamp01 Num.nan = Num.nan.
Proof. reflexivity. Qed.

End Decoder.

Lemma at_index_map_range {A : Type} (f : Z -> A) (n i : Z) :
  0 <= i < n -> at_index (map f (range n)) i = Some (f i).
Proof.
  intros H. unfold at_index, range.
  destruct (Z.ltb_spec i 0); [lia|].
  rewrite map_map.
  rewrite (nth_error_nth' _ (f 0)) by (rewrite length_map, length_seq; lia).
  rewrite (map_nth (fun k => f (Z.of_nat k)) _ O).
  rewrite seq_nth by lia. simpl. now rewrite Z2Nat.id by lia.
Qed.

Lemma at_index_beyond {A : Type} (l : list A) (i : Z) :
  len l <= i -> at_index l i = None.
Proof.
  intros H. pose proof (at_index_defined l i) as D.
  destruct (at_index l i); [|reflexivity].
  destruct (Z.leb_spec 0 i); destruct (Z.ltb_spec i (len l)); simpl in D;
    try discriminate; lia.
Qed.

Section Decoded_values.

Context {M : MathExp}.

(** What [parseOutputs] stores at index [i] of [blendshapes], and as jaw. *)
Lemma parseOutputs_values (sess : Session) (now : Z) (outputs : TensorMap)
  (t : Tensor) :
  lookup (first_name (outputNames sess)) outputs = Some t ->
  exists r,
    parseOutputs sess now outputs = Ok r /\
    (forall i, 0 <= i < 52 ->
       at_index (blendshapes r) i
       = Some (mkBlendshape (name_at blendshapeNames i)
                 (clamp01 (sigmoid (Num.mul (to_number (at_index (t_data t) i))
                                            Num.lit_0_1))))) /\
    jaw r = clamp01 (sigmoid (Num.mul (or_zero (at_index (t_data t) 150))
                                      Num.lit_0_1)) /\
    timestamp r = Some now.
Proof.
  intros Ht. unfold parseOutputs. rewrite Ht. cbn [require bind].
  eexists. split; [reflexivity|]. cbn [blendshapes jaw timestamp].
  split; [|split; reflexivity].
  intros i Hi.
  change (Z.min (len blendshapeNames) skinSize) with 52.
  rewrite (at_index_map_range _ 52 i Hi). reflexivity.
Qed.

(** The jaw value is a weight whatever the engine returned. *)
Lemma parseOutputs_jaw_in_unit (sess : Session) (now : Z) (outputs : TensorMap)
  (r : Result) :
  parseOutputs sess now outputs = Ok r -> Num.in_unit (jaw r) = true.
Proof.
  intros H.
  destruct (lookup (first_name (outputNames sess)) outputs) as [t|] eqn:Ht.
  - destruct (parseOutputs_values sess now outputs t Ht) as (r' & Hr & _ & Hj & _).
    rewrite H in Hr. injection Hr as <-. rewrite Hj.
    apply clamp01_in_unit, sigmoid_not_nan, mul_lit_not_nan, or_zero_not_nan.
  - unfold parseOutputs in H. rewrite Ht in H. discriminate.
Qed.

(** A blendshape read from an entry that is present and a number is a
    weight. *)
Lemma parseOutputs_present_in_unit (sess : Session) (now : Z)
  (outputs : TensorMap) (t : Tensor) (r : Result) (i : Z) (x : float) (b : Blendshape) :
  lookup (first_name (outputNames sess)) outputs = Some t ->
  parseOutputs sess now outputs = Ok r ->
  0 <= i < 52 ->
  at_index (t_data t) i = Some x -> Num.is_nan x = false ->
  at_index (blendshapes r) i = Some b ->
  Num.in_unit (bs_value b) = true.
Proof.
  intros Ht H Hi Hx Hn Hb.
  destruct (parseOutputs_values sess now outputs t Ht) as (r' & Hr & Hv & _).
  rewrite H in Hr. injection Hr as <-.
  rewrite (Hv i Hi), Hx in Hb. injection Hb as <-. cbn [bs_value to_number].
  apply clamp01_in_unit, sigmoid_not_nan, mul_lit_not_nan, Hn.
Qed.

End Decoded_values.

(** C4: the skin read [data[this.skinOffset + i]] has no [|| 0] (the jaw
    and eyes reads have one).  When the raw output is too short to hold
    entry [i], the read is [undefined], [undefined * 0.1] is [NaN], and the
    blendshape value decoded at [i] is [NaN]: neither 0.5 nor a value of
    [0, 1].  The jaw value of the same frame lies in [0, 1]. *)
Theorem parseOutputs_short_raw
  {M : MathExp} (sess : Session) (now : Z) (outputs : TensorMap) (t : Tensor)
  (i : Z) :
  lookup (first_name (outputNames sess)) outputs = Some t ->
  0 <= i < 52 ->
  len (t_data t) <= i ->
  exists r b,
    parseOutputs sess now outputs = Ok r /\
    at_index (blendshapes r) i = Some b /\
    bs_value b = Num.nan /\
    Num.in_unit (bs_value b) = false /\
    Num.in_unit (jaw r) = true.
Proof.
  intros Ht Hi Hshort.
  destruct (parseOutputs_values sess now outputs t Ht) as (r & Hr & Hv & _).
  exists r. eexists. split; [exact Hr|]. split; [exact (Hv i Hi)|].
  cbn [bs_value]. rewrite (at_index_beyond _ _ Hshort). cbn [to_number].
  change (Num.mul Num.nan Num.lit_0_1) with Num.nan.
  rewrite sigmoid_nan, clamp01_nan.
  repeat split. exact (parseOutputs_jaw_in_unit sess now outputs r Hr).
Qed.

Lemma parseOutputs_short_raw_witness :
  exists r b,
    parseOutputs (steady_session []) 0
      [("output"%string, mkTensor "float32" [] [1; 0])] = Ok r /\
    at_index (blendshapes r) 0 = Some b /\
    bs_value b = Num.nan.
Proof.
  destruct (parseOutputs_short_raw (steady_session []) 0
              [("output"%string, mkTensor "float32" [] [1; 0])]
              (mkTensor "float32" [] [1; 0]) 0 eq_refl)
    as (r & b & H1 & H2 & H3 & _).
  - lia.
  - vm_compute. discriminate.
  - exists r, b. repeat split; assumption.
Defined.

(** ** Rounding a representable value

    The facts below are about binary64 ([prec] = 53, [emax] = 1024):
    rounding a value that a canonical mantissa and exponent represent
    exactly gives that mantissa and exponent back. *)

Section Exact_rounding.

Lemma digits2_pos_size (p : positive) : digits2_pos p = Pos.size p.
Proof. induction p; simpl; congruence. Qed.

Lemma iter_pos_iter {A : Type} (f : A -> A) (n : positive) (x : A) :
  iter_pos f n x = Pos.iter f x n.
Proof.
  revert x. induction n as [n IH|n IH|]; intros x; simpl.
  - rewrite !IH. now rewrite <- !Pos.iter_swap.
  - now rewrite !IH.
  - reflexivity.
Qed.

Lemma iter_xO_mul (m k : positive) : Pos.iter xO m k = (m * 2 ^ k)%positive.
Proof.
  induction k as [|k IH] using Pos.peano_ind.
  - simpl. now rewrite Pos.mul_comm.
  - rewrite Pos.iter_succ, IH, Pos.pow_succ_r. lia.
Qed.

Lemma digits2_pos_xO_iter (m k : positive) :
  Z.pos (digits2_pos (Pos.iter xO m k)) = Z.pos (digits2_pos m) + Z.pos k.
Proof.
  induction k as [|k IH] using Pos.peano_ind.
  - simpl. lia.
  - rewrite Pos.iter_succ. simpl. lia.
Qed.

Lemma shr_1_iter_xO (m k : positive) :
  iter_pos shr_1 k (Build_shr_record (Z.pos (Pos.iter xO m k)) false false)
  = Build_shr_record (Z.pos m) false false.
Proof.
  rewrite iter_pos_iter. revert m.
  induction k as [|k IH] using Pos.peano_ind; intros m.
  - reflexivity.
  - rewrite Pos.iter_succ_r. rewrite (Pos.iter_succ k positive xO).
    cbn [shr_1 orb].
    apply IH.
Qed.

Lemma fexp64 (x : Z) : fexp 53 1024 x = Z.max (x - 53) (-1074).
Proof. reflexivity. Qed.

Lemma canonical_fexp (m : positive) (e : Z) :
  canonical_mantissa 53 1024 m e = true ->
  fexp 53 1024 (Z.pos (digits2_pos m) + e) = e.
Proof. unfold canonical_mantissa. apply Z.eqb_eq. Qed.

Lemma binary_round_aux_canonical (s : bool) (m : positive) (e : Z) :
  canonical_mantissa 53 1024 m e = true -> e <= 971 ->
  binary_round_aux 53 1024 s (Z.pos m) e loc_Exact = S754_finite s m e.
Proof.
  intros Hc He. unfold binary_round_aux, shr_fexp. cbn [Zdigits2 shr_record_of_loc].
  rewrite (canonical_fexp m e Hc), Z.sub_diag. cbn [shr shr_m loc_of_shr_record round_nearest_even Zdigits2 shr_record_of_loc].
  rewrite (canonical_fexp m e Hc), Z.sub_diag. cbn [shr shr_m].
  change (1024 - 53) with 971.
  destruct (Z.leb_spec e 971); [reflexivity|lia].
Qed.

(** The value [m * 2^k * 2^(e - k)] with [(m, e)] canonical rounds to
    [(m, e)]. *)
Lemma binary_round_aux_exact (s : bool) (m : positive) (e : Z) (k : positive) :
  canonical_mantissa 53 1024 m e = true -> e <= 971 ->
  binary_round_aux 53 1024 s (Z.pos (Pos.iter xO m k)) (e - Z.pos k) loc_Exact
  = S754_finite s m e.
Proof.
  intros Hc He.
  unfold binary_round_aux. unfold shr_fexp at 1.
  cbn [Zdigits2 shr_record_of_loc].
  rewrite digits2_pos_xO_iter.
  replace (Z.pos (digits2_pos m) + Z.pos k + (e - Z.pos k))
    with (Z.pos (digits2_pos m) + e) by lia.
  rewrite (canonical_fexp m e Hc).
  replace (e - (e - Z.pos k)) with (Z.pos k) by lia.
  cbn [shr]. rewrite shr_1_iter_xO.
  replace (e - Z.pos k + Z.pos k) with e by lia.
  unfold shr_fexp.
  cbn [shr_m loc_of_shr_record round_nearest_even Zdigits2 shr_record_of_loc].
  rewrite (canonical_fexp m e Hc), Z.sub_diag. cbn [shr shr_m].
  change (1024 - 53) with 971.
  destruct (Z.leb_spec e 971); [reflexivity|lia].
Qed.

End Exact_rounding.

(** ** Arithmetic at the values the resampler meets at ratio 1 *)

Section Ratio_one.

Lemma mul_one_r (x : float) :
  Num.is_finite x = true -> valid_binary 53 1024 x = true ->
  Num.mul x Num.one = x.
Proof.
  destruct x as [s|s| |s m e]; try discriminate; intros _ Hv.
  - destruct s; reflexivity.
  - simpl in Hv. apply andb_prop in Hv. destruct Hv as (Hc & He).
    apply Z.leb_le in He. change (1024 - 53) with 971 in He.
    unfold Num.mul, Num.one, SFmul. rewrite xorb_false_r.
    change 4503599627370496%positive with (2 ^ 52)%positive.
    rewrite <- (iter_xO_mul m 52).
    exact (binary_round_aux_exact s m e 52 Hc He).
Qed.

Lemma div_eucl_exact (a b : Z) : 0 < b -> Z.div_eucl (a * b) b = (a, 0).
Proof.
  intros Hb. pose proof (Z.div_mul a b ltac:(lia)) as Hq.
  pose proof (Z.mod_mul a b ltac:(lia)) as Hr.
  unfold Z.div, Z.modulo in *.
  destruct (Z.div_eucl (a * b) b) as [q r]. simpl in *. congruence.
Qed.

Lemma new_location_exact (n : Z) : new_location n 0 = loc_Exact.
Proof.
  unfold new_location, new_location_even, new_location_odd.
  destruct (Z.even n); reflexivity.
Qed.

(** A finite non-zero number divided by itself is exactly 1. *)
Lemma div_self (r : float) :
  Num.is_finite r = true -> Num.truthy r = true -> Num.div r r = Num.one.
Proof.
  destruct r as [s|s| |s m e]; try discriminate; intros _ _.
  unfold Num.div, SFdiv, SFdiv_core_binary.
  rewrite !Z.sub_diag. change (Z.min (fexp Num.prec Num.emax 0) 0) with (-53).
  change (0 - -53) with 53.
  rewrite Z.shiftl_mul_pow2 by lia.
  rewrite Z.mul_comm, (div_eucl_exact (2 ^ 53) (Z.pos m)) by lia.
  rewrite new_location_exact, xorb_nilpotent. reflexivity.
Qed.

(** A number with a full mantissa divided by 1 is itself. *)
Lemma div_one_r (s : bool) (m : positive) (e : Z) :
  Z.pos (digits2_pos m) = 53 -> -1073 <= e <= 971 ->
  Num.div (S754_finite s m e) Num.one = S754_finite s m e.
Proof.
  intros Hd He. unfold Num.div, Num.one, SFdiv, SFdiv_core_binary.
  cbn [Zdigits2]. rewrite Hd.
  change (Z.pos (digits2_pos 4503599627370496)) with 53.
  rewrite fexp64.
  replace (Z.min (Z.max (53 + e - (53 + -52) - 53) (-1074)) (e - -52))
    with (e - 1) by lia.
  replace (e - -52 - (e - 1)) with 53 by lia.
  rewrite Z.shiftl_mul_pow2 by lia.
  change (2 ^ 53) with (2 * Z.pos 4503599627370496).
  rewrite Z.mul_assoc, (div_eucl_exact (Z.pos m * 2) _) by lia.
  rewrite new_location_exact, xorb_false_r.
  replace (Z.pos m * 2) with (Z.pos (Pos.iter xO m 1)) by (simpl; lia).
  apply binary_round_aux_exact; [|lia].
  unfold canonical_mantissa. rewrite Hd, fexp64. apply Z.eqb_eq. lia.
Qed.

Lemma sub_self (x : float) :
  Num.is_finite x = true -> Num.sub x x = Num.zero.
Proof.
  destruct x as [s|s| |s m e]; try discriminate; intros _.
  - destruct s; reflexivity.
  - unfold Num.sub, SFsub. rewrite Z.sub_diag. reflexivity.
Qed.

(** [y * 0] for a finite [y] is a zero, and adding a zero to a finite [x]
    gives a number equal to [x] ([-0 + +0] is [+0]). *)
Lemma mul_zero_r (y : float) :
  Num.is_finite y = true -> exists s, Num.mul y Num.zero = S754_zero s.
Proof.
  destruct y as [s|s| |s m e]; try discriminate; intros _; eexists; reflexivity.
Qed.

Lemma eqb_refl_finite (x : float) : Num.is_finite x = true -> Num.eqb x x = true.
Proof.
  destruct x as [s|s| |s m e]; try discriminate; intros _; [reflexivity|].
  unfold Num.eqb, SFeqb, SFcompare.
  rewrite Z.compare_refl, Pos.compare_cont_refl. destruct s; reflexivity.
Qed.

Lemma add_zero_r (x : float) (s : bool) :
  Num.is_finite x = true ->
  Num.is_finite (Num.add x (S754_zero s)) = true /\
  Num.eqb (Num.add x (S754_zero s)) x = true /\
  (Num.truthy x = true -> Num.add x (S754_zero s) = x).
Proof.
  destruct x as [sx|sx| |sx m e]; try discriminate; intros _.
  - destruct sx, s; repeat split; discriminate.
  - cbn. repeat split.
    apply (eqb_refl_finite (S754_finite sx m e)). reflexivity.
Qed.

End Ratio_one.

(** ** Integers as numbers *)

Section Integers.

Lemma digits2_pos_bounds (p : positive) :
  2 ^ (Z.pos (digits2_pos p) - 1) <= Z.pos p < 2 ^ Z.pos (digits2_pos p).
Proof.
  rewrite digits2_pos_size.
  pose proof (Pos.size_gt p) as G. pose proof (Pos.size_le p) as L.
  apply Pos2Z.pos_lt_pos in G. apply Pos2Z.pos_le_pos in L.
  rewrite Pos2Z.inj_pow in G, L.
  change (Z.pos 2) with 2 in L. change (Z.pos p~0) with (2 * Z.pos p) in L.
  split; [|exact G].
  replace (Z.pos (Pos.size p)) with (Z.succ (Z.pos (Pos.size p) - 1)) in L by lia.
  rewrite Z.pow_succ_r in L by lia. lia.
Qed.

(** The double of a positive integer below 2^53: a full mantissa [m] and
    an exponent [e] in [-52, 0] with [m = i * 2^(-e)]. *)
Lemma of_Z_repr (i : Z) :
  0 < i < 2 ^ 53 ->
  exists m e,
    Num.of_Z i = S754_finite false m e /\
    Z.pos (digits2_pos m) = 53 /\
    -52 <= e <= 0 /\
    Z.pos m = i * 2 ^ (- e).
Proof.
  intros Hi. destruct i as [|p|p]; try lia.
  pose proof (digits2_pos_bounds p) as B.
  assert (Hd : Z.pos (digits2_pos p) <= 53).
  { destruct (Z_le_gt_dec (Z.pos (digits2_pos p)) 53) as [|G]; [assumption|].
    assert (2 ^ 53 <= 2 ^ (Z.pos (digits2_pos p) - 1))
      by (apply Z.pow_le_mono_r; lia).
    lia. }
  unfold Num.of_Z, binary_normalize, binary_round, shl_align.
  rewrite fexp64.
  destruct (Z.eq_dec (Z.pos (digits2_pos p)) 53) as [E|E].
  - rewrite E. cbn [Z.add Z.sub Z.max Z.opp Z.compare Pos.compare Pos.compare_cont Z.pos_sub].
    change (Z.max (53 + 0 - 53) (-1074) - 0) with 0. cbv iota beta.
    exists p, 0. split.
    + apply binary_round_aux_canonical; [|lia].
      unfold canonical_mantissa. rewrite E. reflexivity.
    + split; [exact E|]. split; [lia|]. simpl. lia.
  - remember (Z.to_pos (53 - Z.pos (digits2_pos p))) as k eqn:Ek.
    assert (Hk : Z.pos k = 53 - Z.pos (digits2_pos p)) by (subst k; lia).
    replace (Z.max (Z.pos (digits2_pos p) + 0 - 53) (-1074)) with (Z.neg k) by lia.
    cbn [Z.sub Z.opp Z.add].
    exists (Pos.iter xO p k), (Z.neg k). split.
    + apply binary_round_aux_canonical; [|lia].
      unfold canonical_mantissa. rewrite digits2_pos_xO_iter, fexp64.
      apply Z.eqb_eq. lia.
    + split; [rewrite digits2_pos_xO_iter; lia|]. split; [lia|].
      rewrite iter_xO_mul. cbn [Z.opp].
      rewrite Pos2Z.inj_mul, Pos2Z.inj_pow. reflexivity.
Qed.

Lemma of_Z_finite_valid (i : Z) :
  0 <= i < 2 ^ 53 ->
  Num.is_finite (Num.of_Z i) = true /\ valid_binary 53 1024 (Num.of_Z i) = true.
Proof.
  intros Hi. destruct (Z.eq_dec i 0) as [->|Hn]; [split; reflexivity|].
  destruct (of_Z_repr i ltac:(lia)) as (m & e & -> & Hd & He & _).
  split; [reflexivity|]. cbn [valid_binary]. unfold bounded, canonical_mantissa.
  rewrite Hd, fexp64. apply andb_true_intro. split.
  - apply Z.eqb_eq. lia.
  - apply Z.leb_le. change (1024 - 53) with 971. lia.
Qed.

Lemma of_Z_div_one (i : Z) :
  0 <= i < 2 ^ 53 -> Num.div (Num.of_Z i) Num.one = Num.of_Z i.
Proof.
  intros Hi. destruct (Z.eq_dec i 0) as [->|Hn]; [reflexivity|].
  destruct (of_Z_repr i ltac:(lia)) as (m & e & -> & Hd & He & _).
  apply div_one_r; [exact Hd|lia].
Qed.

Lemma shiftr_scaled (i k : Z) : 0 <= k -> Z.shiftr (i * 2 ^ k) k = i.
Proof.
  intros Hk. rewrite Z.shiftr_div_pow2 by lia.
  apply Z.div_mul. apply Z.pow_nonzero; lia.
Qed.

Lemma floor_of_Z (i : Z) :
  0 <= i < 2 ^ 53 -> Num.floor (Num.of_Z i) = Num.of_Z i.
Proof.
  intros Hi. destruct (Z.eq_dec i 0) as [->|Hn]; [reflexivity|].
  destruct (of_Z_repr i ltac:(lia)) as (m & e & E & Hd & He & Hm).
  rewrite E. unfold Num.floor.
  destruct (Z.leb_spec 0 e); [reflexivity|].
  rewrite Hm, shiftr_scaled by lia. exact E.
Qed.

Lemma to_Z_of_Z (i : Z) :
  0 <= i < 2 ^ 53 -> Num.to_Z (Num.of_Z i) = Some i.
Proof.
  intros Hi. destruct (Z.eq_dec i 0) as [->|Hn]; [reflexivity|].
  destruct (of_Z_repr i ltac:(lia)) as (m & e & E & Hd & He & Hm).
  rewrite E. unfold Num.to_Z.
  destruct (Z.leb_spec 0 e).
  - replace e with 0 in * by lia. f_equal. simpl in Hm. lia.
  - rewrite Z.land_ones by lia. rewrite Hm.
    rewrite Z.mod_mul by (apply Z.pow_nonzero; lia).
    cbn [Z.eqb]. now rewrite shiftr_scaled by lia.
Qed.

Lemma typed_array_length_of_Z (n : Z) :
  0 <= n < 2 ^ 53 -> typed_array_length (Num.of_Z n) = Ok (Z.to_nat n).
Proof.
  intros Hn. destruct (Z.eq_dec n 0) as [->|Hz]; [reflexivity|].
  destruct (of_Z_repr n ltac:(lia)) as (m & e & E & Hd & He & Hm).
  rewrite E. unfold typed_array_length.
  assert (Hz' : (if 0 <=? e then Z.pos m * 2 ^ e else Z.pos m / 2 ^ (- e)) = n).
  { destruct (Z.leb_spec 0 e).
    - replace e with 0 in * by lia. simpl in Hm. lia.
    - rewrite Hm. apply Z.div_mul. apply Z.pow_nonzero; lia. }
  rewrite Hz'.
  destruct (Z.leb_spec 0 n); [|lia].
  destruct (Z.leb_spec n (2 ^ 53 - 1)); [reflexivity|lia].
Qed.

(** Comparing an index with the last index. *)
Lemma leb_of_Z_refl (a : Z) :
  0 <= a < 2 ^ 53 -> Num.leb (Num.of_Z a) (Num.of_Z a) = true.
Proof.
  intros Ha. pose proof (eqb_refl_finite _ (proj1 (of_Z_finite_valid a Ha))) as E.
  unfold Num.eqb, SFeqb in E. unfold Num.leb, SFleb.
  destruct (SFcompare (Num.of_Z a) (Num.of_Z a)) as [[| |]|]; congruence.
Qed.

Lemma leb_of_Z_gt (a i : Z) :
  0 <= i < a -> a < 2 ^ 53 -> Num.leb (Num.of_Z a) (Num.of_Z i) = false.
Proof.
  intros Hi Ha.
  destruct (of_Z_repr a ltac:(lia)) as (ma & ea & -> & Hda & Hea & Hma).
  destruct (Z.eq_dec i 0) as [->|Hn]; [reflexivity|].
  destruct (of_Z_repr i ltac:(lia)) as (mi & ei & -> & Hdi & Hei & Hmi).
  pose proof (digits2_pos_bounds ma) as Ba. pose proof (digits2_pos_bounds mi) as Bi.
  rewrite Hda in Ba. rewrite Hdi in Bi.
  change (2 ^ (53 - 1)) with 4503599627370496 in *.
  change (2 ^ 53) with 9007199254740992 in *.
  unfold Num.leb, SFleb, SFcompare.
  destruct (Z.compare_spec ea ei) as [Ee|Ee|Ee]; [| |reflexivity].
  - subst ei. rewrite Pos.compare_cont_spec. cbn [Pos.switch_Eq].
    destruct (Pos.compare_spec ma mi) as [Em|Em|Em]; [| |reflexivity].
    + exfalso. subst mi. rewrite Hma in Hmi.
      apply Z.mul_cancel_r in Hmi; [lia|apply Z.pow_nonzero; lia].
    + exfalso. apply Pos2Z.pos_lt_pos in Em. rewrite Hma, Hmi in Em.
      apply Z.mul_lt_mono_pos_r in Em; [lia|apply Z.pow_pos_nonneg; lia].
  - exfalso.
    (* ea < ei: then a < i, against i < a *)
    assert (P : 2 ^ (- ea) = 2 ^ (- ei) * 2 ^ (ei - ea)).
    { rewrite <- Z.pow_add_r by lia. f_equal. lia. }
    assert (Q : 2 <= 2 ^ (ei - ea)).
    { change 2 with (2 ^ 1) at 1. apply Z.pow_le_mono_r; lia. }
    assert (R : 0 < 2 ^ (- ei)) by (apply Z.pow_pos_nonneg; lia).
    rewrite P in Hma.
    assert (i * 2 ^ (- ei) * 2 <= a * 2 ^ (- ei) * 2 ^ (ei - ea)) by nia.
    nia.
Qed.

Lemma digits2_pos_scaled (m M : positive) (k : Z) :
  0 <= k -> Z.pos M = Z.pos m * 2 ^ k ->
  Z.pos (digits2_pos M) = Z.pos (digits2_pos m) + k /\
  (k = 0 /\ M = m \/ exists p, k = Z.pos p /\ M = Pos.iter xO m p).
Proof.
  intros Hk HM. destruct k as [|p|p]; [| |lia].
  - assert (M = m) by (simpl in HM; lia). subst M. split; [lia|]. left. auto.
  - assert (M = Pos.iter xO m p).
    { apply Pos2Z.inj. rewrite iter_xO_mul, Pos2Z.inj_mul, Pos2Z.inj_pow. exact HM. }
    subst M. split; [apply digits2_pos_xO_iter|]. right. exists p. auto.
Qed.

(** Rounding [m * 2^k * 2^(e - k)], with [(m, e)] canonical, as
    [binary_normalize] and the operations do it. *)
Lemma binary_round_scaled (s : bool) (m M : positive) (e k : Z) :
  canonical_mantissa 53 1024 m e = true -> e <= 971 ->
  0 <= k -> Z.pos M = Z.pos m * 2 ^ k ->
  binary_round 53 1024 s M (e - k) = S754_finite s m e.
Proof.
  intros Hc He Hk HM.
  destruct (digits2_pos_scaled m M k Hk HM) as (Hd & Hcase).
  unfold binary_round, shl_align. rewrite Hd.
  replace (Z.pos (digits2_pos m) + k + (e - k))
    with (Z.pos (digits2_pos m) + e) by lia.
  rewrite (canonical_fexp m e Hc).
  replace (e - (e - k)) with k by lia.
  destruct Hcase as [(-> & ->)|(p & -> & ->)]; cbv iota beta.
  - rewrite Z.sub_0_r. now apply binary_round_aux_canonical.
  - now apply binary_round_aux_exact.
Qed.

Lemma add_of_Z_one (i : Z) :
  0 <= i -> i + 1 < 2 ^ 53 ->
  Num.add (Num.of_Z i) Num.one = Num.of_Z (i + 1).
Proof.
  intros Hi Hi1. destruct (Z.eq_dec i 0) as [->|Hn]; [reflexivity|].
  destruct (of_Z_repr i ltac:(lia)) as (m & e & -> & Hd & He & Hm).
  destruct (of_Z_repr (i + 1) ltac:(lia)) as (m' & e' & -> & Hd' & He' & Hm').
  unfold Num.add, Num.one, SFadd.
  replace (Z.min e (-52)) with (-52) by lia.
  assert (A : Z.pos (fst (shl_align m e (-52))) = i * 2 ^ 52).
  { unfold shl_align. destruct (-52 - e) as [|d|d] eqn:Ed; cbn [fst].
    - replace e with (-52) in Hm by lia. exact Hm.
    - lia.
    - rewrite iter_xO_mul, Pos2Z.inj_mul, Pos2Z.inj_pow, Hm.
      rewrite <- Z.mul_assoc, <- Z.pow_add_r by lia. do 2 f_equal. lia. }
  cbn [cond_Zopp]. rewrite A.
  change (Z.pos (fst (shl_align 4503599627370496 (-52) (-52)))) with (2 ^ 52).
  replace (i * 2 ^ 52 + 2 ^ 52) with (Z.pos m' * 2 ^ (e' + 52)).
  2:{ rewrite Hm', <- Z.mul_assoc, <- Z.pow_add_r by lia.
      replace (- e' + (e' + 52)) with 52 by lia. lia. }
  assert (P : 0 < Z.pos m' * 2 ^ (e' + 52))
    by (apply Z.mul_pos_pos; [lia|apply Z.pow_pos_nonneg; lia]).
  destruct (Z.pos m' * 2 ^ (e' + 52)) as [|M|M] eqn:EM; try lia.
  unfold binary_normalize.
  replace (-52) with (e' - (e' + 52)) by lia.
  apply binary_round_scaled; try lia.
  unfold canonical_mantissa. rewrite Hd', fexp64. apply Z.eqb_eq. lia.
Qed.

End Integers.

(** ** The resampler *)

Section Resampler.

Lemma Forall2_map_same {A B C : Type} (R : B -> C -> Prop) (g : A -> B)
  (h : A -> C) (l : list A) :
  (forall a, In a l -> R (g a) (h a)) -> Forall2 R (map g l) (map h l).
Proof.
  induction l as [|a l IH]; intros H; simpl; constructor.
  - apply H. now left.
  - apply IH. intros b Hb. apply H. now right.
Qed.

Lemma at_index_exists {A : Type} (l : list A) (i : Z) :
  0 <= i < len l -> exists a, at_index l i = Some a /\ In a l.
Proof.
  intros H. pose proof (at_index_defined l i) as D.
  destruct (at_index l i) as [a|] eqn:E.
  - exists a. split; [reflexivity|]. unfold at_index in E.
    destruct (i <? 0); [discriminate|]. eapply nth_error_In, E.
  - destruct (Z.leb_spec 0 i); destruct (Z.ltb_spec i (len l)); simpl in D;
      try discriminate; lia.
Qed.

(** A list read back through its indices. *)
Lemma list_by_index (l : list float) :
  l = map (fun i => to_number (at_index l i)) (range (len l)).
Proof.
  apply nth_error_ext. intros k.
  destruct (Nat.lt_ge_cases k (List.length l)) as [Hk|Hk].
  - pose proof (at_index_map_range (fun i => to_number (at_index l i)) (len l)
                  (Z.of_nat k) ltac:(unfold len; lia)) as E.
    unfold at_index in E at 1.
    destruct (Z.ltb_spec (Z.of_nat k) 0); [lia|]. rewrite Nat2Z.id in E.
    rewrite E. unfold at_index.
    destruct (Z.ltb_spec (Z.of_nat k) 0); [lia|]. rewrite Nat2Z.id.
    destruct (nth_error l k) eqn:N; [reflexivity|].
    apply nth_error_None in N. lia.
  - rewrite (proj2 (nth_error_None l k)) by exact Hk.
    symmetry. apply nth_error_None.
    unfold range, len. rewrite !length_map, length_seq. lia.
Qed.

Lemma same_number_zero (s s' : bool) : same_number (S754_zero s) (S754_zero s').
Proof. split; [reflexivity|discriminate]. Qed.

(** The value the loop body writes at index [i] when the ratio is 1. *)
Lemma resample_body_ratio_one (x : list float) (i : Z) :
  Forall float32_sample x -> len x < 2 ^ 53 -> 0 <= i < len x ->
  let pos := Num.div (Num.of_Z i) Num.one in
  let index := Num.floor pos in
  let frac := Num.sub pos index in
  same_number
    (Num.fround
       (if Num.leb (Num.of_Z (len x - 1)) index then
          to_number (at_index x (len x - 1))
        else
          Num.add
            (Num.mul (to_number (at_number x index)) (Num.sub Num.one frac))
            (Num.mul (to_number (at_number x (Num.add index Num.one))) frac)))
    (to_number (at_index x i)).
Proof.
  intros Hx Hn Hi. cbv zeta.
  rewrite of_Z_div_one, floor_of_Z by lia.
  rewrite (sub_self _ (proj1 (of_Z_finite_valid i ltac:(lia)))).
  change (Num.sub Num.one Num.zero) with Num.one.
  rewrite Forall_forall in Hx.
  destruct (at_index_exists x i Hi) as (v & Ev & Hv).
  destruct (Hx v Hv) as (Fv & Vv & Rv).
  assert (Sv : same_number v v).
  { split; [now apply eqb_refl_finite|reflexivity]. }
  destruct (Z.eq_dec i (len x - 1)) as [->|Hlast].
  - rewrite leb_of_Z_refl by lia. rewrite Ev. cbn [to_number]. now rewrite Rv.
  - rewrite leb_of_Z_gt by lia.
    unfold at_number. rewrite add_of_Z_one by lia. rewrite !to_Z_of_Z by lia.
    destruct (at_index_exists x (i + 1) ltac:(lia)) as (w & Ew & Hw).
    destruct (Hx w Hw) as (Fw & _ & _).
    rewrite Ev, Ew. cbn [to_number].
    rewrite (mul_one_r v Fv Vv).
    destruct (mul_zero_r w Fw) as (sw & ->).
    destruct (add_zero_r v sw Fv) as (_ & _ & Hadd).
    destruct (Num.truthy v) eqn:Tv.
    + rewrite (Hadd eq_refl), Rv. exact Sv.
    + destruct v as [sv|sv| |sv mv ev]; try discriminate.
      destruct sv, sw; apply same_number_zero.
Qed.

(** At ratio 1 the resampler returns its input: as many samples, each the
    same number (a [-0] followed by a non-negative sample comes back as
    [+0]). *)
Lemma resampleAudio_same_rate (x : list float) (r : float) :
  Num.is_finite r = true -> Num.truthy r = true ->
  Forall float32_sample x -> len x < 2 ^ 53 ->
  exists y,
    resampleAudio x r r = Ok y /\
    List.length y = List.length x /\
    Forall2 same_number y x.
Proof.
  intros Fr Tr Hx Hn. pose proof (len_nonneg x) as H0.
  unfold resampleAudio. rewrite (div_self r Fr Tr).
  destruct (of_Z_finite_valid (len x) ltac:(lia)) as (F & V).
  rewrite (mul_one_r _ F V), floor_of_Z, typed_array_length_of_Z by lia.
  cbn [bind]. rewrite Z2Nat.id by lia.
  eexists. split; [reflexivity|]. split.
  - unfold range, len. rewrite !length_map, length_seq. lia.
  - set (body := fun i : Z => _).
    rewrite (list_by_index x) at 2. subst body.
    apply Forall2_map_same. intros i Hi. apply in_range in Hi.
    exact (resample_body_ratio_one x i Hx Hn Hi).
Qed.

(** The length of the output is the typed-array length of
    [Math.floor(audioData.length * (toRate / fromRate))], taken in double
    arithmetic. *)
Lemma resampleAudio_length (x : list float) (f t : float) (y : list float) :
  resampleAudio x f t = Ok y ->
  typed_array_length
    (Num.floor (Num.mul (Num.of_Z (len x)) (Num.div t f)))
  = Ok (List.length y).
Proof.
  unfold resampleAudio.
  destruct (typed_array_length _) as [n|e]; cbn [bind]; [|discriminate].
  intros [= <-]. unfold range. rewrite !length_map, length_seq.
  now rewrite Nat2Z.id.
Qed.

End Resampler.

(** C7 as stated fails twice.  The length is computed in double
    arithmetic from the rounded ratio: 5507 samples from 44056 Hz to 16000
    Hz give 1999 samples, while floor(5507 * 16000 / 44056) = 2000.  And at
    ratio 1 a sample next to an infinite one is not returned: the
    interpolation computes [1 * 1 + Infinity * 0], which is [NaN]. *)
Lemma resampleAudio_laws_fail :
  (exists y,
     resampleAudio (silence 5507) (Num.of_Z 44056) (Num.of_Z 16000) = Ok y /\
     len y = 1999) /\
  5507 * 16000 / 44056 = 2000 /\
  resampleAudio [Num.one; S754_infinity false] (Num.of_Z 16000) (Num.of_Z 16000)
  = Ok [Num.nan; S754_infinity false].
Proof.
  split; [|split; reflexivity].
  destruct (resampleAudio (silence 5507) (Num.of_Z 44056) (Num.of_Z 16000))
    as [y|e] eqn:E.
  - exists y. split; [reflexivity|].
    apply resampleAudio_length in E.
    assert (T : typed_array_length
                  (Num.floor (Num.mul (Num.of_Z (len (silence 5507)))
                                      (Num.div (Num.of_Z 16000) (Num.of_Z 44056))))
                = Ok 1999%nat) by (vm_compute; reflexivity).
    rewrite T in E. injection E as E. unfold len. rewrite <- E. reflexivity.
  - exfalso. vm_compute in E. discriminate.
Qed.

(** C7, amended.  For every sequence [x] of finite binary32 samples and
    every finite non-zero rate [r], [resampleAudio x r r] has the length of
    [x] and holds the same numbers, element by element (exactly the same
    values, except that a [-0] may come back as [+0]).  For any rates, the
    length of the output is [Math.floor(len x * (toRate / fromRate))]
    evaluated in double arithmetic, the ratio being rounded first. *)
Theorem resampleAudio_ratio_one_and_length
  (x : list float) (r f t : float) (z : list float) :
  Num.is_finite r = true -> Num.truthy r = true ->
  Forall float32_sample x -> len x < 2 ^ 53 ->
  resampleAudio x f t = Ok z ->
  (exists y,
     resampleAudio x r r = Ok y /\
     List.length y = List.length x /\
     Forall2 same_number y x) /\
  typed_array_length (Num.floor (Num.mul (Num.of_Z (len x)) (Num.div t f)))
  = Ok (List.length z).
Proof.
  intros Fr Tr Hx Hn Hz. split.
  - exact (resampleAudio_same_rate x r Fr Tr Hx Hn).
  - exact (resampleAudio_length x f t z Hz).
Qed.

Lemma resampleAudio_ratio_one_and_length_witness :
  exists y,
    resampleAudio [Num.one; S754_zero true; Num.of_Z 5; Num.of_Z (-3)]
      (Num.of_Z 16000) (Num.of_Z 16000) = Ok y /\
    List.length y = 4%nat.
Proof.
  destruct (resampleAudio [Num.one; S754_zero true; Num.of_Z 5; Num.of_Z (-3)]
              (Num.of_Z 44100) (Num.of_Z 16000)) as [z|e] eqn:Ez.
  2:{ exfalso. vm_compute in Ez. discriminate. }
  destruct (resampleAudio_ratio_one_and_length
              [Num.one; S754_zero true; Num.of_Z 5; Num.of_Z (-3)]
              (Num.of_Z 16000) (Num.of_Z 44100) (Num.of_Z 16000) z)
    as ((y & Hy & Hl & _) & _).
  - reflexivity.
  - reflexivity.
  - repeat constructor.
  - vm_compute. reflexivity.
  - exact Ez.
  - exists y. split; assumption.
Defined.

(** * Further properties *)

(** ** Slices of a growing stream *)

Lemma range_0 : range 0 = [].
Proof. reflexivity. Qed.

Lemma range_succ (k : Z) :
  0 <= k -> range (k + 1) = 0 :: map (fun j => j + 1) (range k).
Proof.
  intros Hk. unfold range.
  replace (Z.to_nat (k + 1)) with (S (Z.to_nat k)) by lia.
  rewrite <- cons_seq. cbn [map]. f_equal.
  rewrite <- seq_shift, !map_map. apply map_ext. intros a. lia.
Qed.

Lemma slice_from_0 {A : Type} (l : list A) : slice_from l 0 = l.
Proof. reflexivity. Qed.

Lemma slice_from_app {A : Type} (l1 l2 : list A) (from : Z) :
  from <= len l1 -> slice_from (l1 ++ l2) from = slice_from l1 from ++ l2.
Proof.
  unfold slice_from, len. intros H. rewrite skipn_app.
  replace (Z.to_nat from - List.length l1)%nat with O by lia. reflexivity.
Qed.

Lemma slice_from_twice {A : Type} (l : list A) (a b : Z) :
  0 <= a -> 0 <= b -> slice_from (slice_from l a) b = slice_from l (b + a).
Proof.
  unfold slice_from. intros Ha Hb. rewrite skipn_skipn. f_equal. lia.
Qed.

Lemma slice_app {A : Type} (l1 l2 : list A) (from to : Z) :
  0 <= from -> to <= len l1 -> slice (l1 ++ l2) from to = slice l1 from to.
Proof.
  unfold slice, len. intros Hf Ht. rewrite skipn_app, firstn_app, length_skipn.
  replace (Z.to_nat (to - from) - (List.length l1 - Z.to_nat from))%nat with O by lia.
  cbn [firstn]. apply app_nil_r.
Qed.

Lemma slice_of_slice_from {A : Type} (l : list A) (h a b : Z) :
  0 <= h -> 0 <= a -> slice (slice_from l h) a b = slice l (a + h) (b + h).
Proof.
  unfold slice, slice_from. intros Hh Ha. rewrite skipn_skipn.
  f_equal; [f_equal; lia|f_equal; lia].
Qed.

Lemma window_feeds_succ (sess : Session) (stream : list float) (k : Z) :
  0 <= k ->
  window_feeds sess stream (k + 1)
  = build_feeds sess (slice stream 0 bufferLen)
    :: window_feeds sess (slice_from stream bufferOfs) k.
Proof.
  intros Hk. unfold window_feeds. rewrite (range_succ k Hk). cbn [map].
  f_equal. rewrite map_map. apply map_ext_in. intros j Hj.
  apply in_range in Hj. rewrite slice_of_slice_from by (unfold bufferOfs; lia).
  do 2 f_equal; lia.
Qed.

Lemma len_window_feeds (sess : Session) (stream : list float) (k : Z) :
  0 <= k -> len (window_feeds sess stream k) = k.
Proof.
  intros Hk. unfold window_feeds, range, len.
  rewrite !length_map, length_seq. lia.
Qed.

(** ** Streaming: what a sequence of calls does to the stream *)

Section Stream_facts.

Context {M : MathExp}.

(** The state after a call that consumed a window, whatever the engine
    answered. *)
Lemma processAudioChunk_ready_state (now : Z) (chunk : list float) (s : SDK)
  (sess : Session) :
  session s = Some sess ->
  bufferLen <= len (audioBuffer s) + len chunk ->
  let s' := fst (processAudioChunk now chunk s) in
  session s' = Some sess /\
  smoothingFactor s' = smoothingFactor s /\
  audioBuffer s' = slice_from (appended s chunk) bufferOfs /\
  inferenceLog s'
  = inferenceLog s ++ [build_feeds sess (slice (appended s chunk) 0 bufferLen)].
Proof.
  intros Hs Hlen. cbv zeta.
  rewrite (processAudioChunk_ready now chunk s sess Hs Hlen). cbv zeta.
  pose proof (runInference_fields now (slice (appended s chunk) 0 bufferLen)
                (set_audioBuffer s (slice_from (appended s chunk) bufferOfs))) as F.
  pose proof (runInference_log now (slice (appended s chunk) 0 bufferLen)
                (set_audioBuffer s (slice_from (appended s chunk) bufferOfs))
                sess Hs) as L.
  destruct (runInference now (slice (appended s chunk) 0 bufferLen)
              (set_audioBuffer s (slice_from (appended s chunk) bufferOfs)))
    as [s3 [r|e]]; cbn [fst] in *; destruct F as (F1 & F2 & F3 & F4);
    cbn [set_audioBuffer session audioBuffer smoothingFactor inferenceLog
         set_lastResult] in *;
    repeat split; congruence.
Qed.

(** The stream is never torn: after any sequence of calls on a loaded
    instance, [k] windows have been fed to the engine, they are the windows
    of the whole stream at the offsets [0, bufferOfs, 2 * bufferOfs, ...],
    and the buffer is the stream from offset [k * bufferOfs] on. *)
Lemma after_chunks_stream (now : Z) (chunks : list (list float)) (s : SDK)
  (sess : Session) :
  session s = Some sess ->
  exists k,
    0 <= k <= len chunks /\
    k * bufferOfs <= len (stream_of s chunks) /\
    session (after_chunks now chunks s) = Some sess /\
    smoothingFactor (after_chunks now chunks s) = smoothingFactor s /\
    inferenceLog (after_chunks now chunks s)
    = inferenceLog s ++ window_feeds sess (stream_of s chunks) k /\
    audioBuffer (after_chunks now chunks s)
    = slice_from (stream_of s chunks) (k * bufferOfs).
Proof.
  revert now s. induction chunks as [|c chunks IH]; intros now s Hs.
  - exists 0. cbn [after_chunks]. unfold stream_of. cbn [map List.concat].
    rewrite app_nil_r. change (len (@nil (list float))) with 0.
    repeat split; try lia; auto.
    + apply len_nonneg.
    + unfold window_feeds. rewrite range_0. cbn [map]. now rewrite app_nil_r.
  - cbn [after_chunks].
    assert (St : stream_of s (c :: chunks)
                 = appended s c ++ List.concat (map (map Num.fround) chunks)).
    { unfold stream_of, appended. cbn [map List.concat]. now rewrite app_assoc. }
    assert (Lc : len (c :: chunks) = len chunks + 1) by (unfold len; simpl; lia).
    destruct (Z_lt_le_dec (len (audioBuffer s) + len c) bufferLen) as [Hl|Hl].
    + rewrite (processAudioChunk_filling now c s sess Hs Hl). cbn [fst].
      destruct (IH (now + 1) (set_audioBuffer s (appended s c)) Hs)
        as (k & Hk & Hb & H1 & H2 & H3 & H4).
      assert (E : stream_of (set_audioBuffer s (appended s c)) chunks
                  = stream_of s (c :: chunks)) by (rewrite St; reflexivity).
      rewrite E in *. exists k. rewrite Lc. repeat split; try lia; auto.
    + destruct (processAudioChunk_ready_state now c s sess Hs Hl)
        as (S1 & S2 & S3 & S4).
      destruct (IH (now + 1) (fst (processAudioChunk now c s)) S1)
        as (k & Hk & Hb & H1 & H2 & H3 & H4).
      assert (Ha : bufferOfs <= len (appended s c))
        by (rewrite len_appended; unfold bufferOfs, bufferLen in *; lia).
      assert (E : stream_of (fst (processAudioChunk now c s)) chunks
                  = slice_from (stream_of s (c :: chunks)) bufferOfs).
      { unfold stream_of at 1. rewrite S3, St. now rewrite slice_from_app. }
      rewrite E in *.
      assert (Ls : len (slice_from (stream_of s (c :: chunks)) bufferOfs)
                   = len (stream_of s (c :: chunks)) - bufferOfs).
      { apply len_slice_from. rewrite St, len_app.
        pose proof (len_nonneg (List.concat (map (map Num.fround) chunks))).
        unfold bufferOfs in *. lia. }
      exists (k + 1). rewrite Lc. split; [lia|]. split; [unfold bufferOfs in *; lia|].
      split; [exact H1|]. split; [congruence|]. split.
      * rewrite H3, S4, <- app_assoc. cbn [app]. f_equal.
        rewrite window_feeds_succ by lia. f_equal.
        rewrite St. rewrite slice_app; [reflexivity|lia|].
        rewrite len_appended. exact Hl.
      * rewrite H4, slice_from_twice by (unfold bufferOfs; lia).
        f_equal. lia.
Qed.

End Stream_facts.

(** X1.  No sample is lost or repeated by the streaming buffer: after any
    sequence of [processAudioChunk] calls on a loaded instance, whatever
    the chunk sizes and whatever the engine answers, the buffer is the
    stream of all samples given so far with exactly [k * bufferOfs]
    samples dropped from the front, [k] being the number of inference
    calls made; at most one call is made per chunk. *)
Theorem streaming_buffer_is_stream_suffix
  {M : MathExp} (now : Z) (chunks : list (list float)) (s : SDK)
  (sess : Session) :
  session s = Some sess ->
  0 <= len (inferenceLog (after_chunks now chunks s)) - len (inferenceLog s)
    <= len chunks /\
  audioBuffer (after_chunks now chunks s)
  = slice_from (stream_of s chunks)
      ((len (inferenceLog (after_chunks now chunks s)) - len (inferenceLog s))
       * bufferOfs) /\
  len (audioBuffer (after_chunks now chunks s))
  = len (stream_of s chunks)
    - (len (inferenceLog (after_chunks now chunks s)) - len (inferenceLog s))
      * bufferOfs.
Proof.
  intros Hs.
  destruct (after_chunks_stream now chunks s sess Hs)
    as (k & Hk & Hb & _ & _ & H3 & H4).
  assert (E : len (inferenceLog (after_chunks now chunks s))
              - len (inferenceLog s) = k).
  { rewrite H3, len_app, len_window_feeds by lia. lia. }
  rewrite E. split; [exact Hk|]. split; [exact H4|].
  rewrite H4. apply len_slice_from. unfold bufferOfs in *. lia.
Qed.

Lemma streaming_buffer_is_stream_suffix_witness :
  len (audioBuffer
         (after_chunks 0 [silence 5000; silence 5000; silence 100; silence 9000]
            (loaded (steady_session []))))
  = 19100 - 2 * 4160.
Proof.
  destruct (streaming_buffer_is_stream_suffix 0
              [silence 5000; silence 5000; silence 100; silence 9000]
              (loaded (steady_session [])) (steady_session []) eq_refl)
    as (_ & _ & H).
  rewrite H. vm_compute. reflexivity.
Defined.

(** X2.  The windows a stream is cut into do not depend on how it is
    chunked: after any sequence of [processAudioChunk] calls on a loaded
    instance, the [j]-th inference call made was fed the samples
    [j * bufferOfs, j * bufferOfs + bufferLen) of the stream of all samples
    given (consecutive windows overlap by [bufferLen - bufferOfs]
    samples). *)
Theorem streaming_windows_of_stream
  {M : MathExp} (now : Z) (chunks : list (list float)) (s : SDK)
  (sess : Session) :
  session s = Some sess ->
  inferenceLog (after_chunks now chunks s)
  = inferenceLog s
    ++ window_feeds sess (stream_of s chunks)
         (len (inferenceLog (after_chunks now chunks s)) - len (inferenceLog s)).
Proof.
  intros Hs.
  destruct (after_chunks_stream now chunks s sess Hs)
    as (k & Hk & _ & _ & _ & H3 & _).
  assert (E : len (inferenceLog (after_chunks now chunks s))
              - len (inferenceLog s) = k).
  { rewrite H3, len_app, len_window_feeds by lia. lia. }
  rewrite E. exact H3.
Qed.

Lemma streaming_windows_of_stream_witness :
  inferenceLog
    (after_chunks 0 [silence 5000; silence 5000; silence 100; silence 9000]
       (loaded (steady_session [])))
  = window_feeds (steady_session []) (silence 19100) 2.
Proof.
  rewrite (streaming_windows_of_stream 0
             [silence 5000; silence 5000; silence 100; silence 9000]
             (loaded (steady_session [])) (steady_session []) eq_refl).
  vm_compute. reflexivity.
Defined.

(** X3.  A [processAudioChunk] call on a loaded instance makes exactly one
    inference call when the buffer with the chunk appended holds at least
    [bufferLen] samples and none otherwise: it never works off more than
    one window, however long the chunk. *)
Theorem processAudioChunk_one_inference
  {M : MathExp} (now : Z) (chunk : list float) (s : SDK) (sess : Session) :
  session s = Some sess ->
  inferenceLog (fst (processAudioChunk now chunk s))
  = if bufferLen <=? len (audioBuffer s) + len chunk
    then inferenceLog s
         ++ [build_feeds sess (slice (appended s chunk) 0 bufferLen)]
    else inferenceLog s.
Proof.
  intros Hs.
  destruct (Z.leb_spec bufferLen (len (audioBuffer s) + len chunk)) as [Hl|Hl].
  - exact (proj2 (proj2 (proj2
             (processAudioChunk_ready_state now chunk s sess Hs Hl)))).
  - now rewrite (processAudioChunk_filling now chunk s sess Hs Hl).
Qed.

Lemma processAudioChunk_one_inference_witness :
  List.length
    (inferenceLog (fst (processAudioChunk 0 (silence 30000)
                          (loaded (steady_session [])))))
  = 1%nat.
Proof.
  rewrite (processAudioChunk_one_inference 0 (silence 30000)
             (loaded (steady_session [])) (steady_session []) eq_refl).
  vm_compute. reflexivity.
Defined.

(** X4.  A call that consumes a window keeps the overlap: afterwards the
    first [bufferLen - bufferOfs] = 4160 buffered samples are the last 4160
    samples of the window just fed to the engine. *)
Theorem processAudioChunk_keeps_overlap
  {M : MathExp} (now : Z) (chunk : list float) (s : SDK) (sess : Session) :
  session s = Some sess ->
  bufferLen <= len (audioBuffer s) + len chunk ->
  slice (audioBuffer (fst (processAudioChunk now chunk s))) 0
        (bufferLen - bufferOfs)
  = slice_from (slice (appended s chunk) 0 bufferLen) bufferOfs.
Proof.
  intros Hs Hl.
  destruct (processAudioChunk_ready_state now chunk s sess Hs Hl)
    as (_ & _ & -> & _).
  unfold slice, slice_from. cbn [Z.to_nat Z.sub]. rewrite !skipn_O.
  rewrite firstn_skipn_comm. reflexivity.
Qed.

Lemma processAudioChunk_keeps_overlap_witness :
  slice (audioBuffer (fst (processAudioChunk 0 (map Num.of_Z (range 9000))
                             (loaded (steady_session [])))))
        0 (bufferLen - bufferOfs)
  = map Num.of_Z (map (fun j => j + 4160) (range 4160)).
Proof.
  rewrite (processAudioChunk_keeps_overlap 0 (map Num.of_Z (range 9000))
             (loaded (steady_session [])) (steady_session []) eq_refl).
  - vm_compute. reflexivity.
  - vm_compute. discriminate.
Defined.

(** ** The aggregator on the frames it accepts *)

Lemma mapM_ok_Forall2 {A B : Type} (f : A -> outcome B) (l : list A)
  (out : list B) :
  mapM f l = Ok out -> Forall2 (fun a b => f a = Ok b) l out.
Proof.
  revert out. induction l as [|a l IH]; intros out; simpl.
  - intros [= <-]. constructor.
  - destruct (f a) as [b|e] eqn:E; cbn [bind]; [|discriminate].
    destruct (mapM f l) as [bs|e]; cbn [bind]; [|discriminate].
    intros [= <-]. constructor; [exact E|]. now apply IH.
Qed.

Lemma indexes_of_list {A : Type} (pre l : list A) :
  Forall2 (fun k a => nth_error (pre ++ l) k = Some a)
          (seq (List.length pre) (List.length l)) l.
Proof.
  revert pre. induction l as [|a l IH]; intros pre; simpl; constructor.
  - rewrite nth_error_app2 by lia. now rewrite Nat.sub_diag.
  - specialize (IH (pre ++ [a])). rewrite <- app_assoc in IH. cbn [app] in IH.
    rewrite length_app in IH. cbn [List.length] in IH.
    now replace (List.length pre + 1)%nat with (S (List.length pre)) in IH by lia.
Qed.

Lemma range_indexes {A : Type} (l : list A) :
  Forall2 (fun i a => at_index l i = Some a) (range (len l)) l.
Proof.
  unfold range, len. rewrite Nat2Z.id.
  pose proof (indexes_of_list [] l) as H. cbn [app List.length] in H.
  assert (G : forall ks l',
             Forall2 (fun k a => nth_error l k = Some a) ks l' ->
             Forall2 (fun i a => at_index l i = Some a) (map Z.of_nat ks) l').
  { induction 1 as [|k a ks l' Hk _ IH]; cbn [map]; constructor; [|exact IH].
    unfold at_index. destruct (Z.ltb_spec (Z.of_nat k) 0); [lia|].
    now rewrite Nat2Z.id. }
  exact (G _ _ H).
Qed.

Lemma Forall2_through {A B C : Type} (R : A -> B -> Prop) (S : A -> C -> Prop)
  (T : B -> C -> Prop) (ks : list A) (bs : list B) (cs : list C) :
  (forall k b c, R k b -> S k c -> T b c) ->
  Forall2 R ks bs -> Forall2 S ks cs -> Forall2 T bs cs.
Proof.
  intros H HR. revert cs. induction HR as [|k b ks bs Hkb _ IH]; intros cs HS.
  - inversion HS. constructor.
  - inversion HS as [|? c ? cs' Hkc HS']; subst. constructor.
    + exact (H k b c Hkb Hkc).
    + now apply IH.
Qed.

Lemma Forall2_eq_map {A B C : Type} (f : A -> C) (g : B -> C) (l1 : list A)
  (l2 : list B) :
  Forall2 (fun a b => f a = g b) l1 l2 -> map f l1 = map g l2.
Proof. induction 1; simpl; congruence. Qed.

(** What the aggregator computes at index [i]: the sum from 0 of the
    values at [i], in the order of the frames, divided by their number. *)
Lemma aggregateResults_entries (now : Z) (r0 : Result) (rest : list Result)
  (a : Result) :
  aggregateResults now (r0 :: rest) = Ok a ->
  Forall2 (fun avg b0 =>
             bs_name avg = bs_name b0 /\
             exists sum,
               bs_value avg = Num.div sum (Num.of_Z (len (r0 :: rest))))
          (blendshapes a) (blendshapes r0) /\
  jaw a = Num.div (fold_left (fun acc r => Num.add acc (jaw r)) (r0 :: rest)
                             Num.zero)
                  (Num.of_Z (len (r0 :: rest))) /\
  eyes a = eyes (last (r0 :: rest) r0) /\
  timestamp a = None /\
  frameCount a = Some (len (r0 :: rest)).
Proof.
  unfold aggregateResults. set (f := fun i : Z => _).
  destruct (mapM f (range (len (blendshapes r0)))) as [avg|e] eqn:E;
    cbn [bind]; [|discriminate].
  intros [= <-]. cbn [blendshapes jaw eyes timestamp frameCount].
  split; [|repeat split].
  apply mapM_ok_Forall2 in E.
  refine (Forall2_through _ _ _ _ _ _ _ E (range_indexes (blendshapes r0))).
  intros k b c Hb Hc. subst f. cbv beta in Hb.
  destruct (foldM _ (r0 :: rest) Num.zero) as [sum|e]; cbn [bind] in Hb;
    [|discriminate].
  rewrite Hc in Hb. cbn [require bind] in Hb. injection Hb as <-.
  cbn [bs_name bs_value]. split; [reflexivity|]. now exists sum.
Qed.

(** X5.  When the aggregator completes on a non-empty list, the result
    has the names of the first frame, in its order and number, whatever
    the names of the other frames; its eyes are the eyes of the last
    frame, it carries no timestamp, and [frameCount] is the number of
    frames. *)
Theorem aggregateResults_shape
  (now : Z) (r0 : Result) (rest : list Result) (a : Result) :
  aggregateResults now (r0 :: rest) = Ok a ->
  map bs_name (blendshapes a) = map bs_name (blendshapes r0) /\
  eyes a = eyes (last (r0 :: rest) r0) /\
  timestamp a = None /\
  frameCount a = Some (1 + len rest).
Proof.
  intros H. destruct (aggregateResults_entries now r0 rest a H)
    as (Hb & _ & He & Ht & Hf).
  split; [|split; [exact He|split; [exact Ht|]]].
  - apply Forall2_eq_map. eapply Forall2_impl; [|exact Hb].
    intros x y (Hn & _). exact Hn.
  - rewrite Hf. f_equal. unfold len. cbn [List.length]. lia.
Qed.

Lemma aggregateResults_shape_witness :
  exists a,
    aggregateResults 0
      [ mkResult [mkBlendshape "jawOpen" Num.one] Num.zero None (Some 0) None;
        mkResult [mkBlendshape "other" Num.zero; mkBlendshape "extra" Num.one]
                 Num.one (Some (mkEyes Num.one Num.zero Num.zero Num.zero))
                 (Some 1) None ] = Ok a /\
    map bs_name (blendshapes a) = ["jawOpen"%string] /\
    frameCount a = Some 2.
Proof.
  destruct (aggregateResults 0 _) as [a|e] eqn:E;
    [|exfalso; vm_compute in E; discriminate].
  exists a. split; [reflexivity|].
  destruct (aggregateResults_shape 0 _ _ _ E) as (H1 & _ & _ & H4).
  split; [exact H1|exact H4].
Defined.

(** ** Batch mode: which windows are run *)

Section Batch_windows.

Context {M : MathExp}.

Lemma window_count_nonneg (n : Z) : 0 <= window_count n.
Proof.
  unfold window_count, bufferLen, bufferOfs.
  destruct (Z.leb_spec (n - 8320) 0); [lia|].
  pose proof (Z.div_pos (n - 8320 - 1) 4160 ltac:(lia) ltac:(lia)). lia.
Qed.

Lemma window_count_none (n : Z) : n - bufferLen <= 0 -> window_count n = 0.
Proof.
  intros H. unfold window_count. destruct (Z.leb_spec (n - bufferLen) 0); lia.
Qed.

Lemma runInference_ok_names (now : Z) (chunk : list float) (s s1 : SDK)
  (r : Result) :
  runInference now chunk s = (s1, Ok r) ->
  map bs_name (blendshapes r) = blendshapeNames.
Proof.
  unfold runInference. destruct (session s) as [sess|]; [|discriminate].
  destruct (run sess (inferenceLog s) (build_feeds sess chunk)) as [outs|reason];
    [|discriminate].
  intros [= _ H]. exact (parseOutputs_names sess now outs r H).
Qed.

Lemma batch_loop_windows (sess : Session) (clock : nat -> Z)
  (audio : list float) :
  forall (fuel : nat) (i : Z) (acc : list Result) (s : SDK),
    session s = Some sess ->
    0 <= i ->
    (Z.to_nat (len audio - bufferLen - i) <= fuel)%nat ->
    Forall (fun r => map bs_name (blendshapes r) = blendshapeNames) acc ->
    exists k,
      0 <= k <= window_count (len audio - i) /\
      session (fst (batch_loop fuel clock audio bufferOfs i acc s)) = Some sess /\
      inferenceLog (fst (batch_loop fuel clock audio bufferOfs i acc s))
      = inferenceLog s ++ window_feeds sess (slice_from audio i) k /\
      forall rs,
        snd (batch_loop fuel clock audio bufferOfs i acc s) = Ok rs ->
        k = window_count (len audio - i) /\
        len rs = len acc + k /\
        Forall (fun r => map bs_name (blendshapes r) = blendshapeNames) rs.
Proof.
  induction fuel as [|fuel IH]; intros i acc s Hs Hi Hf Hacc.
  - rewrite batch_loop_stop by lia. exists 0.
    rewrite window_count_none by lia. cbn [fst snd].
    unfold window_feeds. rewrite range_0. cbn [map]. rewrite app_nil_r.
    repeat split; try lia; auto; injection H as <-; auto; lia.
  - destruct (Z_lt_le_dec i (len audio - bufferLen)) as [Hlt|Hge].
    2:{ rewrite batch_loop_stop by lia. exists 0.
        rewrite window_count_none by lia. cbn [fst snd].
        unfold window_feeds. rewrite range_0. cbn [map]. rewrite app_nil_r.
        repeat split; try lia; auto; injection H as <-; auto; lia. }
    rewrite batch_loop_step by exact Hlt.
    pose proof (window_count_step (len audio) i Hlt) as Wc.
    pose proof (window_count_nonneg (len audio - (i + bufferOfs))) as Wn.
    pose proof (runInference_fields (clock (List.length acc))
                  (slice audio i (i + bufferLen)) s) as F.
    pose proof (runInference_log (clock (List.length acc))
                  (slice audio i (i + bufferLen)) s sess Hs) as L.
    assert (W : slice audio i (i + bufferLen)
                = slice (slice_from audio i) 0 bufferLen).
    { rewrite slice_of_slice_from by lia. f_equal; lia. }
    destruct (runInference (clock (List.length acc))
                (slice audio i (i + bufferLen)) s) as [s1 [r|e]] eqn:R;
      cbn [fst] in F, L; destruct F as (F1 & _).
    + destruct (IH (i + bufferOfs) (acc ++ [r]) s1) as (k & Hk & H1 & H2 & H3).
      * congruence.
      * unfold bufferOfs. lia.
      * unfold bufferOfs. lia.
      * apply Forall_app. split; [exact Hacc|].
        constructor; [exact (runInference_ok_names _ _ _ _ _ R)|constructor].
      * exists (k + 1). split; [lia|]. split; [exact H1|]. split.
        -- rewrite H2, L, <- app_assoc. cbn [app]. f_equal.
           rewrite window_feeds_succ by lia. rewrite W. f_equal.
           rewrite slice_from_twice by (unfold bufferOfs; lia).
           do 2 f_equal. lia.
        -- intros rs Hrs. destruct (H3 rs Hrs) as (E1 & E2 & E3).
           rewrite len_app in E2. change (len [r]) with 1 in E2.
           repeat split; try lia. exact E3.
    + exists 1. cbn [fst snd]. split; [lia|]. split; [congruence|]. split.
      * rewrite L. f_equal. unfold window_feeds.
        change (range 1) with [0]. cbn [map]. now rewrite W.
      * discriminate.
Qed.

Lemma runInference_answer (now : Z) (chunk : list float) (s : SDK)
  (sess : Session) :
  session s = Some sess ->
  match snd (runInference now chunk s) with
  | Ok _ =>
      answer_error sess (run sess (inferenceLog s) (build_feeds sess chunk))
      = None
  | Throw e =>
      answer_error sess (run sess (inferenceLog s) (build_feeds sess chunk))
      = Some e
  end.
Proof.
  intros Hs. unfold runInference. rewrite Hs. cbv zeta.
  destruct (run sess (inferenceLog s) (build_feeds sess chunk))
    as [outs|reason]; cbn [snd answer_error]; [|reflexivity].
  unfold parseOutputs.
  destruct (lookup (first_name (outputNames sess)) outs); reflexivity.
Qed.

Lemma window_answer_0 (sess : Session) (log : list TensorMap)
  (stream : list float) :
  window_answer sess log stream 0
  = run sess log (build_feeds sess (slice stream 0 bufferLen)).
Proof.
  unfold window_answer, window_feeds. rewrite range_0. cbn [map].
  now rewrite app_nil_r.
Qed.

Lemma window_answer_succ (sess : Session) (log : list TensorMap)
  (stream : list float) (j : Z) :
  0 <= j ->
  window_answer sess log stream (j + 1)
  = window_answer sess (log ++ [build_feeds sess (slice stream 0 bufferLen)])
      (slice_from stream bufferOfs) j.
Proof.
  intros Hj. unfold window_answer.
  rewrite window_feeds_succ by exact Hj. rewrite <- app_assoc. cbn [app].
  rewrite slice_of_slice_from by (unfold bufferOfs; lia).
  do 3 f_equal; lia.
Qed.

(** The batch loop stops at the first window the engine fails on: every
    call but the last was answered with a decodable output, and the last
    one too unless the loop throws, in which case it throws what that
    answer makes [runInference] throw. *)
Lemma batch_loop_trace (sess : Session) (clock : nat -> Z)
  (audio : list float) :
  forall (fuel : nat) (i : Z) (acc : list Result) (s : SDK),
    session s = Some sess ->
    0 <= i ->
    (Z.to_nat (len audio - bufferLen - i) <= fuel)%nat ->
    exists k,
      0 <= k /\
      calls_made s (fst (batch_loop fuel clock audio bufferOfs i acc s)) = k /\
      (forall j, 0 <= j < k - 1 ->
         answer_error sess
           (window_answer sess (inferenceLog s) (slice_from audio i) j) = None) /\
      match snd (batch_loop fuel clock audio bufferOfs i acc s) with
      | Ok _ =>
          forall j, 0 <= j < k ->
            answer_error sess
              (window_answer sess (inferenceLog s) (slice_from audio i) j) = None
      | Throw e =>
          1 <= k /\
          answer_error sess
            (window_answer sess (inferenceLog s) (slice_from audio i) (k - 1))
          = Some e
      end.
Proof.
  induction fuel as [|fuel IH]; intros i acc s Hs Hi Hf.
  - rewrite batch_loop_stop by lia. exists 0. cbn [fst snd].
    unfold calls_made. repeat split; try lia; intros; lia.
  - destruct (Z_lt_le_dec i (len audio - bufferLen)) as [Hlt|Hge].
    2:{ rewrite batch_loop_stop by lia. exists 0. cbn [fst snd].
        unfold calls_made. repeat split; try lia; intros; lia. }
    rewrite batch_loop_step by exact Hlt.
    pose proof (runInference_fields (clock (List.length acc))
                  (slice audio i (i + bufferLen)) s) as F.
    pose proof (runInference_log (clock (List.length acc))
                  (slice audio i (i + bufferLen)) s sess Hs) as L.
    pose proof (runInference_answer (clock (List.length acc))
                  (slice audio i (i + bufferLen)) s sess Hs) as A.
    assert (W : slice audio i (i + bufferLen)
                = slice (slice_from audio i) 0 bufferLen).
    { rewrite slice_of_slice_from by lia. f_equal; lia. }
    assert (Sh : forall j, 1 <= j ->
              window_answer sess (inferenceLog s) (slice_from audio i) j
              = window_answer sess
                  (inferenceLog s
                   ++ [build_feeds sess (slice (slice_from audio i) 0 bufferLen)])
                  (slice_from audio (i + bufferOfs)) (j - 1)).
    { intros j Hj. replace j with (j - 1 + 1) at 1 by lia.
      rewrite window_answer_succ by lia.
      rewrite slice_from_twice by (unfold bufferOfs; lia).
      do 2 f_equal. lia. }
    destruct (runInference (clock (List.length acc))
                (slice audio i (i + bufferLen)) s) as [s1 [r|e]] eqn:R;
      cbn [fst snd] in F, L, A; destruct F as (F1 & _);
      rewrite W in A, L; rewrite <- window_answer_0 in A.
    + destruct (IH (i + bufferOfs) (acc ++ [r]) s1) as (k & Hk & Hc & Hb & Hl).
      * congruence.
      * unfold bufferOfs. lia.
      * unfold bufferOfs. lia.
      * rewrite L in Hb, Hl.
        assert (Hall : forall j, 0 <= j < k + 1 ->
                  (1 <= j ->
                   answer_error sess
                     (window_answer sess
                        (inferenceLog s
                         ++ [build_feeds sess
                               (slice (slice_from audio i) 0 bufferLen)])
                        (slice_from audio (i + bufferOfs)) (j - 1)) = None) ->
                  answer_error sess
                    (window_answer sess (inferenceLog s) (slice_from audio i) j)
                  = None).
        { intros j Hj Hprev. destruct (Z.eq_dec j 0) as [->|Hn]; [exact A|].
          rewrite Sh by lia. apply Hprev. lia. }
        exists (k + 1). split; [lia|]. split.
        { unfold calls_made in *. rewrite L, len_app in Hc.
          change (len [build_feeds sess (slice (slice_from audio i) 0 bufferLen)])
            with 1 in Hc. lia. }
        split.
        { intros j Hj. apply Hall; [lia|]. intros H1. apply Hb. lia. }
        destruct (snd (batch_loop fuel clock audio bufferOfs (i + bufferOfs)
                         (acc ++ [r]) s1)) as [rs|e].
        -- intros j Hj. apply Hall; [lia|]. intros H1. apply Hl. lia.
        -- destruct Hl as (Hk1 & Hl). split; [lia|].
           rewrite Sh by lia. replace (k + 1 - 1 - 1) with (k - 1) by lia.
           exact Hl.
    + exists 1. cbn [fst snd]. split; [lia|]. split.
      { unfold calls_made. rewrite L, len_app.
        change (len [build_feeds sess (slice (slice_from audio i) 0 bufferLen)])
          with 1. lia. }
      split; [intros; lia|]. split; [lia|exact A].
Qed.

End Batch_windows.

(** X6.  On a loaded instance [processAudioFile] feeds the engine the
    windows of the samples at the offsets [0, bufferOfs, 2 * bufferOfs,
    ...], in that order, and stops at the first one that fails: every call
    but the last was answered with a decodable output, and when the call
    throws, the last window fed is the one whose answer made it throw (the
    engine's rejection, or the [TypeError] of a missing output) and no
    window after it is fed.  It only returns a result when every offset
    [j * bufferOfs] with [j * bufferOfs + bufferLen] strictly below the
    number of samples has been run and answered; the result then carries
    the names of the table, and either no [frameCount] (no window: the
    empty result) or the number of windows.  No partial aggregate is ever
    returned. *)
Theorem processAudioFile_windows
  {M : MathExp} (clock : nat -> Z) (audio : list float) (s : SDK)
  (sess : Session) :
  session s = Some sess ->
  0 <= calls_made s (fst (processAudioFile clock (Float32Samples audio) s))
    <= window_count (len audio) /\
  inferenceLog (fst (processAudioFile clock (Float32Samples audio) s))
  = inferenceLog s
    ++ window_feeds sess audio
         (calls_made s (fst (processAudioFile clock (Float32Samples audio) s))) /\
  (forall j, 0 <= j ->
     (j < window_count (len audio) <-> j * bufferOfs + bufferLen < len audio)) /\
  (forall j,
     0 <= j < calls_made s (fst (processAudioFile clock (Float32Samples audio) s)) - 1 ->
     answer_error sess (window_answer sess (inferenceLog s) audio j) = None) /\
  (forall e,
     snd (processAudioFile clock (Float32Samples audio) s) = Throw e ->
     1 <= calls_made s (fst (processAudioFile clock (Float32Samples audio) s)) /\
     answer_error sess
       (window_answer sess (inferenceLog s) audio
          (calls_made s (fst (processAudioFile clock (Float32Samples audio) s)) - 1))
     = Some e) /\
  (forall r,
     snd (processAudioFile clock (Float32Samples audio) s) = Ok r ->
     calls_made s (fst (processAudioFile clock (Float32Samples audio) s))
     = window_count (len audio) /\
     (forall j, 0 <= j < window_count (len audio) ->
        answer_error sess (window_answer sess (inferenceLog s) audio j) = None) /\
     map bs_name (blendshapes r) = blendshapeNames /\
     frameCount r = if window_count (len audio) =? 0 then None
                    else Some (window_count (len audio))).
Proof.
  intros Hs. unfold processAudioFile. rewrite Hs. cbn [float32_view].
  destruct (batch_loop_windows sess clock audio (List.length audio) 0 [] s Hs)
    as (k & Hk & _ & H2 & H3); [lia|unfold len, bufferLen; lia|constructor|].
  destruct (batch_loop_trace sess clock audio (List.length audio) 0 [] s Hs)
    as (k' & Hk' & Hc & Hb & Hl); [lia|unfold len, bufferLen; lia|].
  rewrite Z.sub_0_r in Hk, H3. rewrite slice_from_0 in H2, Hb, Hl.
  assert (K : k' = k).
  { rewrite <- Hc. unfold calls_made.
    rewrite H2, len_app, len_window_feeds by lia. lia. }
  rewrite K in Hc, Hb, Hl. clear K Hk' k'.
  destruct (batch_loop (List.length audio) clock audio bufferOfs 0 [] s)
    as [s1 [rs|e]]; cbn [fst snd] in *.
  - destruct (H3 rs eq_refl) as (E1 & E2 & E3).
    change (len (@nil Result)) with 0 in E2.
    assert (A : is_ok (aggregateResults (clock (List.length rs)) rs) = true).
    { destruct rs as [|r0 rest]; [reflexivity|].
      apply aggregateResults_is_ok. inversion E3 as [|? ? N0 Nr]; subst.
      eapply Forall_impl; [|exact Nr]. intros a Ha. cbv beta in Ha.
      rewrite <- (length_map bs_name (blendshapes r0)), N0.
      rewrite <- (length_map bs_name (blendshapes a)), Ha. constructor. }
    rewrite Hc. split; [exact Hk|]. split; [exact H2|].
    split; [intros j Hj; apply window_count_spec; exact Hj|].
    split; [exact Hb|]. split.
    { intros e He. rewrite He in A. discriminate. }
    intros r Hr. split; [exact E1|]. split; [rewrite <- E1; exact Hl|].
    destruct rs as [|r0 rest].
    + cbn [aggregateResults] in Hr. injection Hr as <-.
      assert (K : k = 0) by (change (len (@nil Result)) with 0 in E2; lia).
      rewrite <- E1, K. split; [|reflexivity].
      unfold getEmptyResult. cbn [blendshapes]. rewrite map_map. apply map_id.
    + destruct (aggregateResults_entries _ _ _ _ Hr) as (Hbs & _ & _ & _ & Hf).
      split.
      * inversion E3 as [|? ? N0 _]; subst. rewrite <- N0.
        apply Forall2_eq_map. eapply Forall2_impl; [|exact Hbs].
        intros x y (Hn & _). exact Hn.
      * rewrite Hf, E2, <- E1. cbn [Z.add].
        destruct (Z.eqb_spec k 0) as [->|]; [|reflexivity].
        exfalso. unfold len in E2. cbn [List.length] in E2. lia.
  - rewrite Hc. split; [exact Hk|]. split; [exact H2|].
    split; [intros j Hj; apply window_count_spec; exact Hj|].
    split; [exact Hb|]. split; [|discriminate].
    intros e' [= <-]. exact Hl.
Qed.

Lemma processAudioFile_windows_witness :
  inferenceLog
    (fst (processAudioFile no_clock (Float32Samples (silence 20801))
            (loaded (steady_session []))))
  = window_feeds (steady_session []) (silence 20801) 4 /\
  (snd (processAudioFile no_clock (Float32Samples (silence 20801))
          (loaded (failing_after 2 [])))
   = Throw (InferenceError "inference failed") /\
   answer_error (failing_after 2 [])
     (window_answer (failing_after 2 []) [] (silence 20801) 2)
   = Some (InferenceError "inference failed")).
Proof.
  split.
  - destruct (processAudioFile_windows no_clock (silence 20801)
                (loaded (steady_session [])) (steady_session []) eq_refl)
      as (_ & H & _).
    rewrite H. vm_compute. reflexivity.
  - assert (E : snd (processAudioFile no_clock (Float32Samples (silence 20801))
                       (loaded (failing_after 2 [])))
                = Throw (InferenceError "inference failed"))
      by (vm_compute; reflexivity).
    split; [exact E|].
    destruct (processAudioFile_windows no_clock (silence 20801)
                (loaded (failing_after 2 [])) (failing_after 2 []) eq_refl)
      as (_ & _ & _ & _ & H & _).
    destruct (H _ E) as (_ & A).
    assert (C : calls_made (loaded (failing_after 2 []))
                  (fst (processAudioFile no_clock (Float32Samples (silence 20801))
                          (loaded (failing_after 2 [])))) = 3)
      by (vm_compute; reflexivity).
    rewrite C in A. exact A.
Defined.

(** ** The smoother on frames of one cardinality *)

Lemma combine_snd_names (prev curr : list Blendshape) (g : Blendshape -> Blendshape -> float) :
  List.length prev = List.length curr ->
  map bs_name
    (map (fun pb : Blendshape * Blendshape =>
            let (p, bs) := pb in mkBlendshape (bs_name bs) (g p bs))
         (combine prev curr))
  = map bs_name curr.
Proof.
  revert curr. induction prev as [|p prev IH]; intros [|c curr] H;
    try discriminate; cbn [combine map bs_name]; [reflexivity|].
  f_equal. apply IH. now injection H.
Qed.

Lemma smoothBlendshapes_names (factor : float) (prev : option (list Blendshape))
  (curr : list Blendshape) :
  map bs_name (smoothBlendshapes factor prev curr) = map bs_name curr.
Proof.
  unfold smoothBlendshapes. destruct prev as [prev|]; [|reflexivity].
  destruct (Nat.eqb_spec (List.length prev) (List.length curr)) as [E|E];
    cbn [negb]; [|reflexivity].
  exact (combine_snd_names prev curr _ E).
Qed.

(** X7.  Smoothing never renames, reorders, adds or drops a blendshape:
    whatever the previous frame (absent, of another length, or with other
    names at the same indices), the result has the names of the newer
    frame, in order. *)
Theorem smoothBlendshapes_keeps_names
  (factor : float) (prev : option (list Blendshape)) (curr : list Blendshape) :
  map bs_name (smoothBlendshapes factor prev curr) = map bs_name curr /\
  List.length (smoothBlendshapes factor prev curr) = List.length curr.
Proof.
  pose proof (smoothBlendshapes_names factor prev curr) as H.
  split; [exact H|].
  rewrite <- (length_map bs_name), H. apply length_map.
Qed.

Section Streaming_names.

Context {M : MathExp}.

Lemma processAudioChunk_names (now : Z) (chunk : list float) (s : SDK) :
  holds_table_names s ->
  holds_table_names (fst (processAudioChunk now chunk s)) /\
  forall r, snd (processAudioChunk now chunk s) = Ok r ->
            map bs_name (blendshapes r) = blendshapeNames.
Proof.
  intros Hh.
  assert (Hempty : map bs_name (blendshapes (getEmptyResult now)) = blendshapeNames).
  { unfold getEmptyResult. cbn [blendshapes]. rewrite map_map. apply map_id. }
  destruct (session s) as [sess|] eqn:Hs.
  2:{ rewrite (processAudioChunk_not_loaded now chunk s Hs). split; [exact Hh|].
      discriminate. }
  destruct (Z_lt_le_dec (len (audioBuffer s) + len chunk) bufferLen) as [Hl|Hl].
  - rewrite (processAudioChunk_filling now chunk s sess Hs Hl). cbn [fst snd].
    split; [exact Hh|]. intros r [= <-]. unfold holds_table_names in Hh.
    destruct (lastResult s); assumption.
  - rewrite (processAudioChunk_ready now chunk s sess Hs Hl). cbv zeta.
    pose proof (runInference_fields now (slice (appended s chunk) 0 bufferLen)
                  (set_audioBuffer s (slice_from (appended s chunk) bufferOfs))) as F.
    destruct (runInference now (slice (appended s chunk) 0 bufferLen)
                (set_audioBuffer s (slice_from (appended s chunk) bufferOfs)))
      as [s3 [d|e]] eqn:R; cbn [fst snd] in *; destruct F as (_ & _ & Fl & _).
    + apply runInference_ok_names in R.
      assert (N : map bs_name
                    (blendshapes
                       match lastResult s3 with
                       | Some last =>
                           with_blendshapes d
                             (smoothBlendshapes (smoothingFactor s3)
                                (Some (blendshapes last)) (blendshapes d))
                       | None => d
                       end) = blendshapeNames).
      { destruct (lastResult s3); [|exact R].
        cbn [with_blendshapes blendshapes]. now rewrite smoothBlendshapes_names. }
      split; [exact N|]. intros r [= <-]. exact N.
    + split; [|discriminate]. unfold holds_table_names in *.
      now rewrite Fl.
Qed.

End Streaming_names.

(** ** The recursive filter of the streaming path *)






(** X8.  Every frame [processAudioChunk] returns carries the 52 names of
    the table in the table's order: over any sequence of calls started
    without a held frame (or with one that carries the names), whether a
    call returns the empty result, the held frame or a newly decoded and
    smoothed one. *)
Theorem streaming_frames_carry_table_names
  {M : MathExp} (now : Z) (chunks : list (list float)) (s : SDK) :
  holds_table_names s ->
  Forall (fun out : SDK * outcome Result =>
            forall r, snd out = Ok r ->
                      map bs_name (blendshapes r) = blendshapeNames /\
                      List.length (blendshapes r) = 52%nat)
         (feed_chunks now chunks s).
Proof.
  revert now s. induction chunks as [|c chunks IH]; intros now s Hh;
    cbn [feed_chunks]; constructor.
  - intros r Hr.
    pose proof (proj2 (processAudioChunk_names now c s Hh) r Hr) as N.
    split; [exact N|]. rewrite <- (length_map bs_name), N. reflexivity.
  - apply IH. exact (proj1 (processAudioChunk_names now c s Hh)).
Qed.

Lemma streaming_frames_carry_table_names_witness :
  Forall (fun out : SDK * outcome Result =>
            forall r, snd out = Ok r ->
                      map bs_name (blendshapes r) = blendshapeNames /\
                      List.length (blendshapes r) = 52%nat)
         (feed_chunks 0 [silence 100; silence 9000; silence 4160]
            (loaded (steady_session (silence 169)))).
Proof.
  apply streaming_frames_carry_table_names. exact I.
Defined.

(** ** Exact arithmetic at 0 and 1 *)

Lemma same_number_refl (x : float) : Num.is_finite x = true -> same_number x x.
Proof. intros H. split; [now apply eqb_refl_finite|reflexivity]. Qed.

Lemma add_zero_l (s : bool) (x : float) :
  Num.is_finite x = true ->
  same_number (Num.add (S754_zero s) x) x /\
  Num.is_finite (Num.add (S754_zero s) x) = true /\
  valid_binary 53 1024 (Num.add (S754_zero s) x) = valid_binary 53 1024 x.
Proof.
  destruct x as [sx|sx| |sx m e]; try discriminate; intros _.
  - destruct s, sx; repeat split; discriminate.
  - cbn. split; [|split; reflexivity].
    apply (same_number_refl (S754_finite sx m e)). reflexivity.
Qed.

Lemma add_zero_r_same (x : float) (s : bool) :
  Num.is_finite x = true -> same_number (Num.add x (S754_zero s)) x.
Proof.
  intros H. destruct (add_zero_r x s H) as (_ & E & T). split; assumption.
Qed.

(** A finite well-formed number divided by 1 is itself, subnormal numbers
    included. *)
Lemma div_one_valid (x : float) :
  Num.is_finite x = true -> valid_binary 53 1024 x = true ->
  Num.div x Num.one = x.
Proof.
  destruct x as [s|s| |s m e]; try discriminate; intros _ Hv.
  - destruct s; reflexivity.
  - cbn [valid_binary] in Hv. apply andb_prop in Hv. destruct Hv as (Hc & He).
    apply Z.leb_le in He. change (1024 - 53) with 971 in He.
    pose proof (canonical_fexp m e Hc) as Hf. rewrite fexp64 in Hf.
    destruct (Z.eq_dec (Z.pos (digits2_pos m)) 53) as [Hd|Hd].
    + destruct (Z_le_gt_dec (-1073) e) as [G|G];
        [apply div_one_r; [exact Hd|lia]|].
      assert (e = -1074) by lia. subst e.
      unfold Num.div, Num.one, SFdiv, SFdiv_core_binary.
      cbn [Zdigits2]. rewrite Hd.
      change (Z.pos (digits2_pos 4503599627370496)) with 53.
      change (Z.min (fexp Num.prec Num.emax (53 + -1074 - (53 + -52)))
                    (-1074 - -52)) with (-1074).
      change (-1074 - -52 - -1074) with 52.
      rewrite Z.shiftl_mul_pow2 by lia.
      change (2 ^ 52) with (Z.pos 4503599627370496).
      rewrite (div_eucl_exact (Z.pos m) _) by lia.
      rewrite new_location_exact, xorb_false_r.
      apply binary_round_aux_canonical; [exact Hc|lia].
    + assert (e = -1074) by lia. subst e.
      assert (Z.pos (digits2_pos m) < 53) by lia.
      unfold Num.div, Num.one, SFdiv, SFdiv_core_binary.
      cbn [Zdigits2].
      change (Z.pos (digits2_pos 4503599627370496)) with 53.
      rewrite fexp64.
      replace (Z.min (Z.max (Z.pos (digits2_pos m) + -1074 - (53 + -52) - 53)
                            (-1074)) (-1074 - -52)) with (-1074) by lia.
      change (-1074 - -52 - -1074) with 52.
      rewrite Z.shiftl_mul_pow2 by lia.
      change (2 ^ 52) with (Z.pos 4503599627370496).
      rewrite (div_eucl_exact (Z.pos m) _) by lia.
      rewrite new_location_exact, xorb_false_r.
      apply binary_round_aux_canonical; [exact Hc|lia].
Qed.

Lemma same_number_trans_eq (a b c : float) :
  a = b -> same_number b c -> same_number a c.
Proof. now intros ->. Qed.

(** ** The smoother at the ends of the range of the factor *)

Lemma blend_factor_zero (p c : float) :
  Num.is_finite p = true ->
  Num.is_finite c = true -> valid_binary 53 1024 c = true ->
  same_number (Num.add (Num.mul p Num.zero)
                       (Num.mul c (Num.sub Num.one Num.zero))) c.
Proof.
  intros Fp Fc Vc. change (Num.sub Num.one Num.zero) with Num.one.
  rewrite (mul_one_r c Fc Vc).
  destruct (mul_zero_r p Fp) as (s & ->).
  exact (proj1 (add_zero_l s c Fc)).
Qed.

Lemma blend_factor_one (p c : float) :
  Num.is_finite p = true -> valid_binary 53 1024 p = true ->
  Num.is_finite c = true ->
  same_number (Num.add (Num.mul p Num.one)
                       (Num.mul c (Num.sub Num.one Num.one))) p.
Proof.
  intros Fp Vp Fc. change (Num.sub Num.one Num.one) with Num.zero.
  rewrite (mul_one_r p Fp Vp).
  destruct (mul_zero_r c Fc) as (s & ->).
  exact (add_zero_r_same p s Fp).
Qed.

(** X9.  The two ends of the smoothing factor, on frames of one
    cardinality with finite values: with factor 0 the smoothed frame is
    the newer frame (no smoothing), with factor 1 it has the values of
    the previous frame under the names of the newer one (the output
    freezes).  Values are the same numbers; a [-0] may come back as
    [+0]. *)
Theorem smoothBlendshapes_factor_ends
  (prev curr : list Blendshape) :
  List.length prev = List.length curr ->
  Forall finite_value prev -> Forall finite_value curr ->
  Forall2 (fun out c => bs_name out = bs_name c /\
                        same_number (bs_value out) (bs_value c))
          (smoothBlendshapes Num.zero (Some prev) curr) curr /\
  Forall2 (fun out p => same_number (bs_value out) (bs_value p))
          (smoothBlendshapes Num.one (Some prev) curr) prev /\
  map bs_name (smoothBlendshapes Num.one (Some prev) curr) = map bs_name curr.
Proof.
  intros Hlen Hp Hc. split; [|split; [|apply smoothBlendshapes_names]].
  - unfold smoothBlendshapes. rewrite Hlen, Nat.eqb_refl. cbn [negb].
    revert curr Hlen Hc. induction Hp as [|p prev (Fp & Vp) _ IH];
      intros [|c curr] Hlen Hc; try discriminate; cbn [combine map];
      constructor.
    + inversion Hc as [|? ? (Fc & Vc) _]; subst. cbn [bs_name bs_value].
      split; [reflexivity|]. now apply blend_factor_zero.
    + apply IH; [now injection Hlen|now inversion Hc].
  - unfold smoothBlendshapes. rewrite Hlen, Nat.eqb_refl. cbn [negb].
    revert curr Hlen Hc. induction Hp as [|p prev (Fp & Vp) _ IH];
      intros [|c curr] Hlen Hc; try discriminate; cbn [combine map];
      constructor.
    + inversion Hc as [|? ? (Fc & Vc) _]; subst. cbn [bs_value].
      now apply blend_factor_one.
    + apply IH; [now injection Hlen|now inversion Hc].
Qed.

Lemma smoothBlendshapes_factor_ends_witness :
  Forall2 (fun out c => bs_name out = bs_name c /\
                        same_number (bs_value out) (bs_value c))
          (smoothBlendshapes Num.zero
             (Some [mkBlendshape "jawOpen" Num.lit_0_3;
                    mkBlendshape "mouthOpen" Num.one])
             [mkBlendshape "jawOpen" Num.lit_0_1;
              mkBlendshape "mouthOpen" (S754_zero true)])
          [mkBlendshape "jawOpen" Num.lit_0_1;
           mkBlendshape "mouthOpen" (S754_zero true)].
Proof.
  refine (proj1 (smoothBlendshapes_factor_ends
                   [mkBlendshape "jawOpen" Num.lit_0_3;
                    mkBlendshape "mouthOpen" Num.one]
                   [mkBlendshape "jawOpen" Num.lit_0_1;
                    mkBlendshape "mouthOpen" (S754_zero true)] _ _ _));
    [reflexivity| |]; repeat constructor.
Defined.

(** ** The smoothing factor *)

Lemma compare_eq_one (m : positive) (e : Z) :
  SFcompare (S754_finite false m e) Num.one = Some Eq ->
  S754_finite false m e = Num.one.
Proof.
  unfold Num.one, SFcompare.
  destruct (Z.compare_spec e (-52)) as [->| |]; try discriminate.
  rewrite Pos.compare_cont_spec. cbn [Pos.switch_Eq].
  destruct (Pos.compare_spec m 4503599627370496) as [->| |]; try discriminate.
  reflexivity.
Qed.

Lemma clamp01_keeps_unit (v : float) :
  Num.in_unit v = true -> same_number (clamp01 v) v.
Proof.
  destruct v as [[|]|[|]| |[|] m e]; try discriminate; intros H.
  - apply same_number_zero.
  - apply same_number_zero.
  - unfold Num.in_unit in H. apply andb_prop in H. destruct H as (_ & H1).
    unfold clamp01, Num.min.
    change (Num.is_nan Num.one || Num.is_nan (S754_finite false m e)) with false.
    cbv iota.
    destruct (Num.ltb (S754_finite false m e) Num.one) eqn:L.
    + apply (same_number_refl (S754_finite false m e)). reflexivity.
    + assert (E : S754_finite false m e = Num.one).
      { apply compare_eq_one. unfold Num.leb, SFleb in H1.
        unfold Num.ltb, SFltb in L.
        destruct (SFcompare (S754_finite false m e) Num.one) as [[| |]|];
          congruence. }
      rewrite E. split; reflexivity.
Qed.

(** X10.  [setSmoothing] stores a factor of [0, 1] for every number it is
    given, stores a factor that already lies in [0, 1] as it is, and
    touches nothing else; given [NaN] it stores [NaN], which neither
    [Math.min] nor [Math.max] removes. *)
Theorem setSmoothing_clamps (factor : float) (s : SDK) :
  (Num.is_nan factor = false ->
   Num.in_unit (smoothingFactor (setSmoothing factor s)) = true) /\
  (Num.in_unit factor = true ->
   same_number (smoothingFactor (setSmoothing factor s)) factor) /\
  (Num.is_nan factor = true ->
   smoothingFactor (setSmoothing factor s) = Num.nan) /\
  session (setSmoothing factor s) = session s /\
  audioBuffer (setSmoothing factor s) = audioBuffer s /\
  lastResult (setSmoothing factor s) = lastResult s /\
  inferenceLog (setSmoothing factor s) = inferenceLog s.
Proof.
  unfold setSmoothing. cbn [set_smoothingFactor smoothingFactor session
                            audioBuffer lastResult inferenceLog].
  fold (clamp01 factor).
  split; [apply clamp01_in_unit|]. split; [apply clamp01_keeps_unit|].
  split; [|repeat split].
  destruct factor; try discriminate. reflexivity.
Qed.

Lemma setSmoothing_clamps_witness :
  Num.in_unit (smoothingFactor (setSmoothing (Num.of_Z 7) new_SDK)) = true /\
  same_number (smoothingFactor (setSmoothing Num.lit_0_1 new_SDK)) Num.lit_0_1.
Proof.
  split.
  - apply (proj1 (setSmoothing_clamps (Num.of_Z 7) new_SDK)). reflexivity.
  - apply (proj1 (proj2 (setSmoothing_clamps Num.lit_0_1 new_SDK))). reflexivity.
Defined.

(** ** The mean of one frame *)

Lemma mapM_all_ok {A B : Type} (f : A -> outcome B) (g : A -> B) (l : list A) :
  (forall a, In a l -> f a = Ok (g a)) -> mapM f l = Ok (map g l).
Proof.
  induction l as [|a l IH]; intros H; simpl; [reflexivity|].
  rewrite (H a (or_introl eq_refl)). cbn [bind].
  rewrite IH by (intros b Hb; apply H; now right). reflexivity.
Qed.

Lemma Forall2_map_graph {A B : Type} (g : A -> B) (l : list A) :
  Forall2 (fun a b => b = g a) l (map g l).
Proof. induction l; simpl; constructor; auto. Qed.

Lemma mean_of_one (v : float) :
  Num.is_finite v = true -> valid_binary 53 1024 v = true ->
  same_number (Num.div (Num.add Num.zero v) (Num.of_Z 1)) v.
Proof.
  intros Fv Vv. change (Num.of_Z 1) with Num.one.
  destruct (add_zero_l false v Fv) as (S & F & V).
  fold Num.zero in S, F, V. rewrite Vv in V.
  rewrite (div_one_valid _ F V). exact S.
Qed.

(** X11.  The aggregate of a single frame with finite values is that
    frame: the same names, the same numbers as blendshape values and as
    jaw (a [-0] comes back as [+0]), the same eyes, with [frameCount] 1
    and without the timestamp. *)
Theorem aggregateResults_single_frame (now : Z) (r : Result) :
  Forall finite_value (blendshapes r) ->
  Num.is_finite (jaw r) = true -> valid_binary 53 1024 (jaw r) = true ->
  exists a,
    aggregateResults now [r] = Ok a /\
    Forall2 (fun out b => bs_name out = bs_name b /\
                          same_number (bs_value out) (bs_value b))
            (blendshapes a) (blendshapes r) /\
    same_number (jaw a) (jaw r) /\
    eyes a = eyes r /\
    frameCount a = Some 1 /\
    timestamp a = None.
Proof.
  intros Hb Fj Vj. unfold aggregateResults.
  set (g := fun i : Z =>
              match at_index (blendshapes r) i with
              | Some b => mkBlendshape (bs_name b)
                            (Num.div (Num.add Num.zero (bs_value b)) (Num.of_Z 1))
              | None => mkBlendshape "undefined" Num.nan
              end).
  rewrite (mapM_all_ok _ g).
  2:{ intros i Hi. apply in_range in Hi.
      destruct (at_index_exists (blendshapes r) i Hi) as (b & Eb & _).
      subst g. cbv beta. cbn [foldM]. rewrite Eb. reflexivity. }
  cbn [bind]. eexists. split; [reflexivity|].
  cbn [blendshapes jaw eyes frameCount timestamp last fold_left].
  split; [|split; [now apply mean_of_one|repeat split]].
  refine (Forall2_through _ _ _ _ _ _ _
            (Forall2_map_graph g (range (len (blendshapes r))))
            (range_indexes (blendshapes r))).
  intros i out b Hout Hi. subst out g. cbv beta.
  rewrite Hi. cbn [bs_name bs_value]. split; [reflexivity|].
  rewrite Forall_forall in Hb.
  assert (In b (blendshapes r)) as Hin.
  { unfold at_index in Hi. destruct (i <? 0); [discriminate|].
    eapply nth_error_In, Hi. }
  destruct (Hb b Hin) as (F & V). now apply mean_of_one.
Qed.

Lemma aggregateResults_single_frame_witness :
  exists a,
    aggregateResults 0
      [mkResult [mkBlendshape "jawOpen" Num.lit_0_3] Num.lit_0_1 None (Some 5) None]
    = Ok a /\
    frameCount a = Some 1.
Proof.
  destruct (aggregateResults_single_frame 0
              (mkResult [mkBlendshape "jawOpen" Num.lit_0_3] Num.lit_0_1 None
                        (Some 5) None))
    as (a & Ha & _ & _ & _ & Hf & _).
  - repeat constructor.
  - reflexivity.
  - reflexivity.
  - exists a. split; assumption.
Defined.

(** ** The feeds of an inference call *)

Lemma lookup_assign_same (k : string) (t : Tensor) (m : TensorMap) :
  lookup k (assign k t m) = Some t.
Proof.
  induction m as [|[k' t'] m IH]; cbn [assign lookup].
  - now rewrite String.eqb_refl.
  - destruct (String.eqb k k') eqn:E; cbn [lookup].
    + now rewrite String.eqb_refl.
    + rewrite E. exact IH.
Qed.

Lemma lookup_assign_other (k k' : string) (t : Tensor) (m : TensorMap) :
  k <> k' -> lookup k (assign k' t m) = lookup k m.
Proof.
  intros H. apply String.eqb_neq in H.
  induction m as [|[k'' t''] m IH]; cbn [assign lookup].
  - now rewrite H.
  - destruct (String.eqb k' k'') eqn:E; cbn [lookup].
    + apply String.eqb_eq in E. subst k''. now rewrite H.
    + destruct (String.eqb k k''); [reflexivity|exact IH].
Qed.

Lemma build_feeds_unfold (sess : Session) (chunk : list float) :
  build_feeds sess chunk
  = let feeds := assign (audio_key sess) (audio_tensor chunk) [] in
    if includes "emotion" (inputNames sess)
    then assign "emotion" emotion_tensor feeds
    else feeds.
Proof.
  unfold build_feeds, audio_key, audio_tensor, emotion_tensor. cbv zeta.
  destruct (includes "audio" (inputNames sess));
    [|destruct (includes "input" (inputNames sess))]; reflexivity.
Qed.

Lemma audio_key_emotion (sess : Session) :
  audio_key sess = "emotion"%string ->
  includes "emotion" (inputNames sess) = true.
Proof.
  unfold audio_key.
  destruct (includes "audio" (inputNames sess)); [discriminate|].
  destruct (includes "input" (inputNames sess)); [discriminate|].
  destruct (inputNames sess) as [|n names]; cbn [first_name]; [discriminate|].
  intros ->. reflexivity.
Qed.

(** X12.  What [runInference] feeds the engine.  The audio tensor, of
    shape [1, 1, length], goes under the name ["audio"] if the engine
    advertises it, else ["input"], else the first advertised name; an
    all-zero tensor of shape [1, 1, 26] goes under ["emotion"] exactly when
    the engine advertises that name.  When the name chosen for the audio is
    itself ["emotion"] (an engine whose first input is ["emotion"] and that
    has neither ["audio"] nor ["input"]), the second assignment overwrites
    the first and the audio does not reach the engine. *)
Theorem build_feeds_contents (sess : Session) (chunk : list float) :
  build_feeds sess chunk
  = (if includes "emotion" (inputNames sess) then
       if String.eqb (audio_key sess) "emotion"
       then [("emotion"%string, emotion_tensor)]
       else [(audio_key sess, audio_tensor chunk);
             ("emotion"%string, emotion_tensor)]
     else [(audio_key sess, audio_tensor chunk)]) /\
  lookup (audio_key sess) (build_feeds sess chunk)
  = (if String.eqb (audio_key sess) "emotion" then Some emotion_tensor
     else Some (audio_tensor chunk)) /\
  (lookup "emotion" (build_feeds sess chunk)
   = if includes "emotion" (inputNames sess) then Some emotion_tensor else None) /\
  t_data (audio_tensor chunk) = chunk /\
  t_dims (audio_tensor chunk) = [1; 1; len chunk].
Proof.
  rewrite build_feeds_unfold. cbv zeta. cbn [assign].
  destruct (String.eqb (audio_key sess) "emotion") eqn:K.
  - apply String.eqb_eq in K. rewrite (audio_key_emotion sess K), K.
    cbn. repeat split.
  - destruct (includes "emotion" (inputNames sess)) eqn:I.
    + cbn [assign]. rewrite String.eqb_sym, K. cbn [lookup].
      rewrite String.eqb_refl, String.eqb_sym, K.
      change (String.eqb "emotion" "emotion") with true. cbv iota.
      repeat split.
    + cbn [lookup]. rewrite String.eqb_refl, String.eqb_sym, K. repeat split.
Qed.

(** ** The decoder: weights, eyes and zero logits *)

Section Decoder_more.

Context {M : MathExp}.

Lemma decode_missing_is_nan (raw : option float) :
  match raw with Some x => Num.is_nan x = true | None => True end ->
  clamp01 (sigmoid (Num.mul (to_number raw) Num.lit_0_1)) = Num.nan.
Proof.
  intros H. assert (E : to_number raw = Num.nan).
  { destruct raw as [x|]; [|reflexivity]. destruct x; try discriminate.
    reflexivity. }
  rewrite E. change (Num.mul Num.nan Num.lit_0_1) with Num.nan.
  now rewrite sigmoid_nan, clamp01_nan.
Qed.

Lemma decode_zero (s : bool) :
  clamp01 (sigmoid (Num.mul (S754_zero s) Num.lit_0_1)) = one_half.
Proof.
  unfold sigmoid. destruct s.
  - change (Num.opp (Num.mul (S754_zero true) Num.lit_0_1)) with (S754_zero false).
    rewrite exp_zero. reflexivity.
  - change (Num.opp (Num.mul (S754_zero false) Num.lit_0_1)) with (S754_zero true).
    rewrite exp_zero. reflexivity.
Qed.

Lemma in_at_index {A : Type} (l : list A) (a : A) :
  In a l -> exists i, 0 <= i < len l /\ at_index l i = Some a.
Proof.
  intros H. apply In_nth_error in H. destruct H as (n & Hn).
  exists (Z.of_nat n). split.
  - assert (n < List.length l)%nat by (apply nth_error_Some; congruence).
    unfold len. lia.
  - unfold at_index. destruct (Z.ltb_spec (Z.of_nat n) 0); [lia|].
    now rewrite Nat2Z.id.
Qed.

Lemma at_index_In {A : Type} (l : list A) (i : Z) (a : A) :
  at_index l i = Some a -> In a l.
Proof.
  unfold at_index. destruct (i <? 0); [discriminate|]. apply nth_error_In.
Qed.

End Decoder_more.

(** X13.  When the engine's answer holds the first advertised output,
    decoding succeeds, and the decoded blendshape values are all weights
    of [0, 1] exactly when the first 52 raw entries are all present and
    none is [NaN]; the jaw value is a weight in every case. *)
Theorem parseOutputs_weights
  {M : MathExp} (sess : Session) (now : Z) (outputs : TensorMap) (t : Tensor) :
  lookup (first_name (outputNames sess)) outputs = Some t ->
  exists r,
    parseOutputs sess now outputs = Ok r /\
    Num.in_unit (jaw r) = true /\
    (Forall (fun b => Num.in_unit (bs_value b) = true) (blendshapes r) <->
     forall i, 0 <= i < 52 ->
       exists x, at_index (t_data t) i = Some x /\ Num.is_nan x = false).
Proof.
  intros Ht.
  destruct (parseOutputs_values sess now outputs t Ht) as (r & Hr & Hv & _).
  exists r. split; [exact Hr|].
  split; [exact (parseOutputs_jaw_in_unit sess now outputs r Hr)|].
  assert (L : len (blendshapes r) = 52).
  { unfold len. rewrite <- (length_map bs_name),
      (parseOutputs_names sess now outputs r Hr). reflexivity. }
  split.
  - intros HF i Hi. rewrite Forall_forall in HF.
    pose proof (Hv i Hi) as E.
    assert (Hin : In (mkBlendshape (name_at blendshapeNames i)
                        (clamp01 (sigmoid (Num.mul (to_number (at_index (t_data t) i))
                                                   Num.lit_0_1))))
                     (blendshapes r)).
    { exact (at_index_In _ _ _ E). }
    specialize (HF _ Hin). cbn [bs_value] in HF.
    destruct (at_index (t_data t) i) as [x|] eqn:Ex.
    + exists x. split; [reflexivity|]. destruct (Num.is_nan x) eqn:N; [|reflexivity].
      rewrite (decode_missing_is_nan (Some x) N) in HF. discriminate.
    + rewrite (decode_missing_is_nan None I) in HF. discriminate.
  - intros H. apply Forall_forall. intros b Hb.
    destruct (in_at_index _ _ Hb) as (i & Hi & Eb). rewrite L in Hi.
    rewrite (Hv i Hi) in Eb. injection Eb as <-. cbn [bs_value].
    destruct (H i Hi) as (x & -> & Hx). cbn [to_number].
    apply clamp01_in_unit, sigmoid_not_nan, mul_lit_not_nan, Hx.
Qed.

Lemma parseOutputs_weights_witness :
  exists r,
    parseOutputs (steady_session (silence 169)) 0
      [("output"%string, mkTensor "float32" (silence 169) [1; 169])] = Ok r /\
    Num.in_unit (jaw r) = true.
Proof.
  destruct (parseOutputs_weights (steady_session (silence 169)) 0
              [("output"%string, mkTensor "float32" (silence 169) [1; 169])]
              (mkTensor "float32" (silence 169) [1; 169]) eq_refl)
    as (r & Hr & Hj & _).
  exists r. split; assumption.
Defined.

Lemma or_zero_cases (v : option float) :
  Num.is_nan (or_zero v) = false /\
  (forall x, v = Some x -> Num.truthy x = true -> or_zero v = x) /\
  (match v with Some x => Num.truthy x = false | None => True end ->
   or_zero v = Num.zero).
Proof.
  split; [apply or_zero_not_nan|]. split.
  - intros x -> H. cbn [or_zero]. now rewrite H.
  - destruct v as [x|]; [|reflexivity]. intros H. cbn [or_zero]. now rewrite H.
Qed.

(** X14.  The eyes of a decoded frame are always present and none of the
    four values is [NaN]: each is the raw entry at 165, 166, 167, 168 when
    that entry is present and is a non-zero number, passed through as it
    is (neither squashed nor clamped, so possibly infinite or outside
    [0, 1]), and [+0] when the entry is missing, zero or [NaN]. *)
Theorem parseOutputs_eyes
  {M : MathExp} (sess : Session) (now : Z) (outputs : TensorMap) (t : Tensor) :
  lookup (first_name (outputNames sess)) outputs = Some t ->
  exists r e,
    parseOutputs sess now outputs = Ok r /\
    eyes r = Some e /\
    Forall2 (fun v j =>
               Num.is_nan v = false /\
               (forall x, at_index (t_data t) (165 + j) = Some x ->
                          Num.truthy x = true -> v = x) /\
               (match at_index (t_data t) (165 + j) with
                | Some x => Num.truthy x = false
                | None => True
                end -> v = Num.zero))
            [leftX e; leftY e; rightX e; rightY e] [0; 1; 2; 3].
Proof.
  intros Ht. unfold parseOutputs. rewrite Ht. cbn [require bind].
  eexists. eexists. split; [reflexivity|]. cbn [eyes]. split; [reflexivity|].
  cbn [leftX leftY rightX rightY].
  repeat constructor; try apply or_zero_not_nan;
    try (intros x Hx Tx; eapply (proj1 (proj2 (or_zero_cases _))); eassumption);
    try (intros Hx; apply (proj2 (proj2 (or_zero_cases _))); exact Hx).
Qed.

Lemma parseOutputs_eyes_witness :
  exists r e,
    parseOutputs (steady_session []) 0
      [("output"%string,
        mkTensor "float32"
          (silence 165 ++ [Num.of_Z 7; Num.nan; S754_infinity true])
          [1; 168])] = Ok r /\
    eyes r = Some e /\
    [leftX e; leftY e; rightX e; rightY e]
    = [Num.of_Z 7; Num.zero; S754_infinity true; Num.zero].
Proof.
  destruct (parseOutputs_eyes (steady_session []) 0
              [("output"%string,
                mkTensor "float32"
                  (silence 165 ++ [Num.of_Z 7; Num.nan; S754_infinity true])
                  [1; 168])]
              (mkTensor "float32"
                 (silence 165 ++ [Num.of_Z 7; Num.nan; S754_infinity true])
                 [1; 168]) eq_refl)
    as (r & e & Hr & He & _).
  exists r, e. split; [exact Hr|]. split; [exact He|].
  vm_compute in Hr. injection Hr as <-. injection He as <-. reflexivity.
Defined.

(** X15.  A raw entry that is a zero decodes to exactly 0.5, for a
    blendshape (each index on its own, whatever the other entries are) as
    for the jaw; the jaw is 0.5 as well when its entry (index 150) is
    missing or [NaN], where a blendshape is [NaN].  The jaw does not
    depend on the blendshape entries, nor a blendshape on the jaw entry. *)
Theorem parseOutputs_zero_logit
  {M : MathExp} (sess : Session) (now : Z) (outputs : TensorMap) (t : Tensor) :
  lookup (first_name (outputNames sess)) outputs = Some t ->
  exists r,
    parseOutputs sess now outputs = Ok r /\
    (forall i sign,
       0 <= i < 52 ->
       at_index (t_data t) i = Some (S754_zero sign) ->
       exists b, at_index (blendshapes r) i = Some b /\ bs_value b = one_half) /\
    (match at_index (t_data t) 150 with
     | Some x => Num.truthy x = false
     | None => True
     end -> jaw r = one_half) /\
    (forall i,
       0 <= i < 52 ->
       match at_index (t_data t) i with
       | Some x => Num.is_nan x = true
       | None => True
       end ->
       exists b, at_index (blendshapes r) i = Some b /\ bs_value b = Num.nan).
Proof.
  intros Ht.
  destruct (parseOutputs_values sess now outputs t Ht) as (r & Hr & Hv & Hjaw & _).
  exists r. split; [exact Hr|]. split; [|split].
  - intros i sign Hi Hz. eexists. split; [exact (Hv i Hi)|].
    cbn [bs_value]. rewrite Hz. cbn [to_number]. apply decode_zero.
  - intros Hj. rewrite Hjaw, (proj2 (proj2 (or_zero_cases _)) Hj).
    apply decode_zero.
  - intros i Hi Hn. eexists. split; [exact (Hv i Hi)|].
    cbn [bs_value]. now apply decode_missing_is_nan.
Qed.

Lemma parseOutputs_zero_logit_witness :
  (exists r b,
     parseOutputs (steady_session []) 0
       [("output"%string,
         mkTensor "float32" (silence 150 ++ [Num.of_Z 7]) [1; 151])] = Ok r /\
     at_index (blendshapes r) 51 = Some b /\
     bs_value b = one_half /\
     jaw r <> one_half) /\
  (exists r b,
     parseOutputs (steady_session []) 0
       [("output"%string, mkTensor "float32" [Num.of_Z 7] [1; 1])] = Ok r /\
     jaw r = one_half /\
     at_index (blendshapes r) 0 = Some b /\
     bs_value b <> one_half).
Proof.
  split.
  - destruct (parseOutputs_zero_logit (steady_session []) 0
                [("output"%string,
                  mkTensor "float32" (silence 150 ++ [Num.of_Z 7]) [1; 151])]
                (mkTensor "float32" (silence 150 ++ [Num.of_Z 7]) [1; 151])
                eq_refl) as (r & Hr & Hb & _).
    destruct (Hb 51 false ltac:(lia) eq_refl) as (b & Hb1 & Hb2).
    exists r, b. split; [exact Hr|]. split; [exact Hb1|]. split; [exact Hb2|].
    vm_compute in Hr. injection Hr as <-. vm_compute. discriminate.
  - destruct (parseOutputs_zero_logit (steady_session []) 0
                [("output"%string, mkTensor "float32" [Num.of_Z 7] [1; 1])]
                (mkTensor "float32" [Num.of_Z 7] [1; 1])
                eq_refl) as (r & Hr & _ & Hj & _).
    exists r. eexists. split; [exact Hr|]. split; [exact (Hj I)|].
    vm_compute in Hr. injection Hr as <-.
    split; [vm_compute; reflexivity|]. vm_compute. discriminate.
Defined.

(** ** The errors of the two entry points *)

Section Error_kinds.

Context {M : MathExp}.



End Error_kinds.



(** ** The resampler at degenerate inputs *)

Lemma resampleAudio_zero_length (x : list float) (f t : float) :
  typed_array_length
    (Num.floor (Num.mul (Num.of_Z (len x)) (Num.div t f))) = Ok O ->
  resampleAudio x f t = Ok [].
Proof.
  intros H. unfold resampleAudio. rewrite H. reflexivity.
Qed.

(** X17.  The resampler returns an empty output, without an error, for an
    empty input at any rates whatever (zero, negative, infinite and [NaN]
    included), and for any input when one of the rates is [NaN]. *)
Theorem resampleAudio_empty_output (x : list float) (f t : float) :
  x = [] \/ Num.is_nan f = true \/ Num.is_nan t = true ->
  resampleAudio x f t = Ok [].
Proof.
  intros H. apply resampleAudio_zero_length.
  destruct H as [->|H].
  - change (Num.of_Z (len (@nil float))) with Num.zero.
    destruct (Num.div t f) as [[|]|[|]| |[|] m e]; reflexivity.
  - assert (E : Num.div t f = Num.nan).
    { destruct H as [H|H]; [destruct f|destruct t]; try discriminate;
        [destruct t|]; reflexivity. }
    rewrite E. destruct (Num.of_Z (len x)); reflexivity.
Qed.

Lemma resampleAudio_empty_output_witness :
  resampleAudio [] (Num.of_Z 0) (Num.of_Z (-5)) = Ok [] /\
  resampleAudio [Num.one; Num.one] Num.nan (Num.of_Z 16000) = Ok [].
Proof.
  split; apply resampleAudio_empty_output.
  - left. reflexivity.
  - right. left. reflexivity.
Defined.

(** X18.  Resampling a non-empty input from the rate 0 to a finite
    non-zero rate throws a [RangeError]: the ratio is infinite, and so is
    the length asked of the [Float32Array]. *)
Theorem resampleAudio_from_zero_rate (x : list float) (sign : bool) (t : float) :
  0 < len x < 2 ^ 53 ->
  Num.is_finite t = true -> Num.truthy t = true ->
  resampleAudio x (S754_zero sign) t = Throw RangeError.
Proof.
  intros Hx Ft Tt. unfold resampleAudio.
  destruct (of_Z_repr (len x) Hx) as (m & e & -> & _).
  destruct t as [st|st| |st mt et]; try discriminate.
  destruct st, sign; reflexivity.
Qed.

Lemma resampleAudio_from_zero_rate_witness :
  resampleAudio [Num.one; Num.lit_0_1] Num.zero (Num.of_Z 16000)
  = Throw RangeError.
Proof.
  apply (resampleAudio_from_zero_rate [Num.one; Num.lit_0_1] false (Num.of_Z 16000)).
  - vm_compute. split; reflexivity.
  - reflexivity.
  - reflexivity.
Defined.

(** ** Loading and disposing *)

Lemma loadModel_sdk_fields (host : Host) (modelFile : ModelFile)
  (options : option bool) (this : Instance) :
  audioBuffer (sdk (fst (loadModel host modelFile options this)))
  = audioBuffer (sdk this) /\
  lastResult (sdk (fst (loadModel host modelFile options this)))
  = lastResult (sdk this) /\
  smoothingFactor (sdk (fst (loadModel host modelFile options this)))
  = smoothingFactor (sdk this) /\
  inferenceLog (sdk (fst (loadModel host modelFile options this)))
  = inferenceLog (sdk this).
Proof.
  unfold loadModel.
  destruct modelFile as [b|b|path|b|];
    try destruct (readFileSync host path);
    cbv zeta; cbv iota beta;
    try (destruct (create host (createLog this) _ _);
         [|destruct (create host _ _ _)]);
    cbn; auto.
Qed.

(** X19.  What [loadModel] does to the instance.  It never touches the
    sample buffer, the held last frame or the smoothing factor, so a model
    swapped in mid-stream inherits them.  When the first creation
    succeeds, the session is the one it returns and the recorded backend
    is the first provider asked for: ["cuda"] if the GPU was asked for,
    ["cpu"] if not.  When the first creation fails and the retry
    succeeds, the session is the one of the retry and the recorded backend
    is ["cpu"], also when the GPU was asked for.  When the model cannot be
    read, or both creations fail, the call throws (the invalid-model
    error, or what the file system or the second creation raised) and the
    session and the recorded backend are those before the call: a model
    loaded earlier stays in place. *)
Theorem loadModel_effects
  (host : Host) (modelFile : ModelFile) (options : option bool)
  (this : Instance) :
  let bytes :=
    match modelFile with
    | ModelArrayBuffer b | ModelNodeBuffer b | ModelBlob b => Some b
    | ModelPath path =>
        match readFileSync host path with
        | Returned b => Some b
        | Raised _ => None
        end
    | ModelOther => None
    end in
  let first :=
    mkSessionOptions
      (if useGPU_of options then ["cuda"; "cpu"] else ["cpu"])%string "all" in
  let retry := mkSessionOptions ["cpu"%string] "all" in
  let out := loadModel host modelFile options this in
  audioBuffer (sdk (fst out)) = audioBuffer (sdk this) /\
  lastResult (sdk (fst out)) = lastResult (sdk this) /\
  smoothingFactor (sdk (fst out)) = smoothingFactor (sdk this) /\
  match bytes with
  | None =>
      snd out
      = LoadThrow match modelFile with
                  | ModelPath path =>
                      match readFileSync host path with
                      | Raised message => HostError message
                      | Returned _ => InvalidModel
                      end
                  | _ => InvalidModel
                  end /\
      session (sdk (fst out)) = session (sdk this) /\
      actualBackend (fst out) = actualBackend this
  | Some b =>
      match create host (createLog this) b first with
      | Returned sess =>
          snd out = LoadOk sess /\
          session (sdk (fst out)) = Some sess /\
          actualBackend (fst out)
          = Some (if useGPU_of options then "cuda" else "cpu")%string
      | Raised _ =>
          match create host (createLog this ++ [(b, first)]) b retry with
          | Returned sess =>
              snd out = LoadOk sess /\
              session (sdk (fst out)) = Some sess /\
              actualBackend (fst out) = Some "cpu"%string
          | Raised message =>
              snd out = LoadThrow (HostError message) /\
              session (sdk (fst out)) = session (sdk this) /\
              actualBackend (fst out) = actualBackend this
          end
      end
  end.
Proof.
  cbv zeta.
  destruct (loadModel_sdk_fields host modelFile options this) as (A & B & C & _).
  split; [exact A|]. split; [exact B|]. split; [exact C|].
  unfold loadModel.
  destruct modelFile as [b|b|path|b|];
    try destruct (readFileSync host path);
    cbv zeta; cbv iota beta;
    try (destruct (create host (createLog this) _ _);
         [|cbn [graphOptimizationLevel]; destruct (create host _ _ _)]);
    cbn [fst snd sdk actualBackend set_session session executionProviders];
    try (destruct (useGPU_of options)); cbn; auto.
Qed.

Lemma loadModel_effects_witness :
  snd (loadModel cpu_only_host (ModelPath "model.onnx") (Some true) new_Instance)
  = LoadOk (steady_session []) /\
  actualBackend
    (fst (loadModel cpu_only_host (ModelPath "model.onnx") (Some true)
            new_Instance))
  = Some "cpu"%string /\
  actualBackend
    (fst (loadModel cpu_only_host (ModelPath "model.onnx") None new_Instance))
  = Some "cpu"%string.
Proof.
  destruct (loadModel_effects cpu_only_host (ModelPath "model.onnx") (Some true)
              new_Instance) as (_ & _ & _ & H1 & _ & H2).
  destruct (loadModel_effects cpu_only_host (ModelPath "model.onnx") None
              new_Instance) as (_ & _ & _ & _ & _ & H3).
  split; [exact H1|]. split; [exact H2|exact H3].
Defined.

(** X20.  The attempts of [loadModel].  No session is created for a model
    that is neither a buffer, a blob nor a readable path.  Otherwise the
    engine is asked once, with the providers [cuda, cpu] if the GPU was
    asked for and [cpu] if not, and, exactly when that attempt fails, a
    second and last time with the provider [cpu]: also when the first
    attempt already was on [cpu] alone. *)
Theorem loadModel_attempts
  (host : Host) (modelFile : ModelFile) (options : option bool)
  (this : Instance) :
  let bytes :=
    match modelFile with
    | ModelArrayBuffer b | ModelNodeBuffer b | ModelBlob b => Some b
    | ModelPath path =>
        match readFileSync host path with
        | Returned b => Some b
        | Raised _ => None
        end
    | ModelOther => None
    end in
  let first :=
    mkSessionOptions
      (if useGPU_of options then ["cuda"; "cpu"] else ["cpu"])%string "all" in
  let retry := mkSessionOptions ["cpu"%string] "all" in
  createLog (fst (loadModel host modelFile options this))
  = createLog this
    ++ match bytes with
       | None => []
       | Some b =>
           match create host (createLog this) b first with
           | Returned _ => [(b, first)]
           | Raised _ => [(b, first); (b, retry)]
           end
       end.
Proof.
  cbv zeta. unfold loadModel.
  destruct modelFile as [b|b|path|b|];
    try destruct (readFileSync host path);
    cbv zeta; cbv iota beta;
    try (destruct (create host (createLog this) _ _);
         [|destruct (create host _ _ _)]);
    cbn [fst createLog graphOptimizationLevel];
    rewrite <- ?app_assoc, ?app_nil_r; reflexivity.
Qed.

(** X21.  After [dispose] the instance has no session, an empty buffer
    and no held frame, and keeps its smoothing factor; both entry points
    then throw the not-loaded error and change nothing; and once a session
    is set again, a first chunk shorter than a window returns the empty
    result, not a frame held before the disposal. *)
Theorem dispose_resets
  {M : MathExp} (now : Z) (chunk : list float) (clock : nat -> Z)
  (input : AudioInput) (s : SDK) (sess : Session) :
  len chunk < bufferLen ->
  smoothingFactor (dispose s) = smoothingFactor s /\
  processAudioChunk now chunk (dispose s) = (dispose s, Throw ModelNotLoaded) /\
  processAudioFile clock input (dispose s) = (dispose s, Throw ModelNotLoaded) /\
  dispose (dispose s) = dispose s /\
  snd (processAudioChunk now chunk (set_session (dispose s) sess))
  = Ok (getEmptyResult now) /\
  audioBuffer (fst (processAudioChunk now chunk (set_session (dispose s) sess)))
  = map Num.fround chunk.
Proof.
  intros Hlen. split; [reflexivity|]. split; [reflexivity|].
  split; [reflexivity|]. split; [reflexivity|].
  rewrite (processAudioChunk_filling now chunk (set_session (dispose s) sess)
             sess eq_refl).
  - split; reflexivity.
  - cbn [set_session dispose audioBuffer]. change (len (@nil float)) with 0. lia.
Qed.

Lemma dispose_resets_witness :
  snd (processAudioChunk 3 (silence 100)
         (set_session (dispose (loaded (steady_session []))) (steady_session [])))
  = Ok (getEmptyResult 3).
Proof.
  refine (proj1 (proj2 (proj2 (proj2 (proj2
            (dispose_resets 3 (silence 100) no_clock Unsupported
               (loaded (steady_session [])) (steady_session []) _)))))).
  vm_compute. reflexivity.
Defined.

(** ** Streaming hop by hop against batch *)

Section Hop_by_hop.

Context {M : MathExp}.

Lemma len_cons {A : Type} (a : A) (l : list A) : len (a :: l) = 1 + len l.
Proof. unfold len. cbn [List.length]. lia. Qed.

(** Once the buffer holds one hop, every hop-sized chunk fills a window
    and leaves one hop again. *)
Lemma hop_chunks_steady (now : Z) (chunks : list (list float)) (s : SDK)
  (sess : Session) :
  session s = Some sess ->
  len (audioBuffer s) = bufferOfs ->
  Forall (fun c => len c = bufferOfs) chunks ->
  len (inferenceLog (after_chunks now chunks s))
  = len (inferenceLog s) + len chunks.
Proof.
  intros Hs Hb Hc. revert now s Hs Hb.
  induction Hc as [|c chunks Hc _ IH]; intros now s Hs Hb; cbn [after_chunks].
  - change (len (@nil (list float))) with 0. lia.
  - assert (Hl : bufferLen <= len (audioBuffer s) + len c)
      by (rewrite Hb, Hc; unfold bufferLen, bufferOfs; lia).
    destruct (processAudioChunk_ready_state now c s sess Hs Hl)
      as (S1 & _ & S3 & S4).
    rewrite IH; [|exact S1|].
    + rewrite S4, len_app, !len_cons. change (len (@nil TensorMap)) with 0. lia.
    + rewrite S3, len_slice_from; rewrite len_appended, Hb, Hc;
        unfold bufferOfs; lia.
Qed.

(** The number of engine calls of a batch run, and the frame count it
    reports. *)
Lemma processAudioFile_calls (clock : nat -> Z) (audio : list float) (s : SDK)
  (sess : Session) :
  session s = Some sess ->
  0 <= calls_made s (fst (processAudioFile clock (Float32Samples audio) s))
    <= window_count (len audio) /\
  forall r,
    snd (processAudioFile clock (Float32Samples audio) s) = Ok r ->
    calls_made s (fst (processAudioFile clock (Float32Samples audio) s))
    = window_count (len audio) /\
    frameCount r = if window_count (len audio) =? 0 then None
                   else Some (window_count (len audio)).
Proof.
  intros Hs. unfold processAudioFile. rewrite Hs. cbn [float32_view].
  destruct (batch_loop_windows sess clock audio (List.length audio) 0 [] s Hs)
    as (k & Hk & _ & H2 & H3); [lia|unfold len, bufferLen; lia|constructor|].
  rewrite Z.sub_0_r in Hk, H3. rewrite slice_from_0 in H2.
  assert (E : forall s', inferenceLog s' = inferenceLog s ++ window_feeds sess audio k ->
                         calls_made s s' = k).
  { intros s' H. unfold calls_made.
    rewrite H, len_app, len_window_feeds by lia. lia. }
  destruct (batch_loop (List.length audio) clock audio bufferOfs 0 [] s)
    as [s1 [rs|e]]; cbn [fst snd] in *; rewrite (E _ H2);
    (split; [exact Hk|]); [|discriminate].
  intros r Hr. destruct (H3 rs eq_refl) as (E1 & E2 & E3).
  change (len (@nil Result)) with 0 in E2. split; [exact E1|].
  destruct rs as [|r0 rest].
  - cbn [aggregateResults] in Hr. injection Hr as <-.
    assert (K : k = 0) by (change (len (@nil Result)) with 0 in E2; lia).
    rewrite <- E1, K. reflexivity.
  - destruct (aggregateResults_frameCount _ _ _ _ Hr) as (Hf & _).
    rewrite Hf, E2, <- E1. cbn [Z.add].
    destruct (Z.eqb_spec k 0) as [->|]; [|reflexivity].
    exfalso. unfold len in E2. cbn [List.length] in E2. lia.
Qed.

Lemma window_count_hops (m : Z) :
  0 <= m -> window_count (m * bufferOfs) = Z.max 0 (m - 2).
Proof.
  intros N.
  pose proof (window_count_nonneg (m * bufferOfs)) as W.
  pose proof (window_count_spec (m * bufferOfs)
                (window_count (m * bufferOfs)) W) as S1.
  destruct (Z.eq_dec (window_count (m * bufferOfs)) 0) as [E|E].
  - rewrite E in *. unfold bufferOfs, bufferLen in S1.
    pose proof (window_count_spec (m * bufferOfs) 0 ltac:(lia)) as S0.
    unfold bufferOfs, bufferLen in S0. lia.
  - pose proof (window_count_spec (m * bufferOfs)
                  (window_count (m * bufferOfs) - 1) ltac:(lia)) as S2.
    unfold bufferOfs, bufferLen in *. lia.
Qed.

End Hop_by_hop.

(** X22.  Streaming and batch do not cut the same number of windows out
    of the same samples.  Fed hop by hop ([m] chunks of [bufferOfs] = 4160
    samples into an empty loaded instance), [processAudioChunk] calls the
    engine [m - 1] times, once for every window that fits
    ([j * 4160 + 8320 <= m * 4160]), whatever the engine answers;
    [processAudioFile] over the same [m * 4160] samples calls it at most
    [m - 2] times, and exactly [m - 2] times whenever it returns a result,
    which then reports [m - 2] frames (none for [m <= 2]): the last full
    window is left out. *)
Theorem hop_by_hop_streaming_runs_one_more_window
  {M : MathExp} (now : Z) (clock : nat -> Z) (chunks : list (list float))
  (s : SDK) (sess : Session) :
  session s = Some sess ->
  audioBuffer s = [] ->
  Forall (fun c => len c = bufferOfs) chunks ->
  calls_made s (after_chunks now chunks s) = Z.max 0 (len chunks - 1) /\
  0 <= calls_made s
         (fst (processAudioFile clock (Float32Samples (stream_of s chunks)) s))
    <= Z.max 0 (len chunks - 2) /\
  (forall r,
     snd (processAudioFile clock (Float32Samples (stream_of s chunks)) s) = Ok r ->
     calls_made s
       (fst (processAudioFile clock (Float32Samples (stream_of s chunks)) s))
     = Z.max 0 (len chunks - 2) /\
     frameCount r = if len chunks <=? 2 then None else Some (len chunks - 2)).
Proof.
  intros Hs Hb Hc. split.
  - unfold calls_made. destruct Hc as [|c chunks Hc Hcs]; cbn [after_chunks].
    + change (len (@nil (list float))) with 0. lia.
    + assert (Hl : len (audioBuffer s) + len c < bufferLen)
        by (rewrite Hb, Hc; unfold bufferLen, bufferOfs; cbn; lia).
      rewrite (processAudioChunk_filling now c s sess Hs Hl). cbn [fst].
      rewrite (hop_chunks_steady (now + 1) chunks
                 (set_audioBuffer s (appended s c)) sess Hs); [|
        cbn [set_audioBuffer audioBuffer]; rewrite len_appended, Hb, Hc;
        reflexivity|exact Hcs].
      cbn [set_audioBuffer inferenceLog]. rewrite len_cons.
      pose proof (len_nonneg chunks). lia.
  - assert (L : len (stream_of s chunks) = len chunks * bufferOfs).
    { unfold stream_of. rewrite Hb. cbn [app].
      induction Hc as [|c chunks Hc _ IH]; [reflexivity|].
      cbn [map List.concat]. rewrite len_app, len_map, IH, Hc, len_cons.
      lia. }
    pose proof (len_nonneg chunks) as N.
    destruct (processAudioFile_calls clock (stream_of s chunks) s sess Hs)
      as (H1 & H2).
    rewrite L, (window_count_hops _ N) in H1, H2.
    split; [exact H1|]. intros r Hr. destruct (H2 r Hr) as (E1 & E2).
    split; [exact E1|]. rewrite E2.
    destruct (Z.leb_spec (len chunks) 2);
      destruct (Z.eqb_spec (Z.max 0 (len chunks - 2)) 0); try lia;
      try reflexivity.
    f_equal. lia.
Qed.

Lemma hop_by_hop_streaming_runs_one_more_window_witness :
  calls_made (loaded (steady_session []))
    (after_chunks 0 [silence 4160; silence 4160; silence 4160]
       (loaded (steady_session []))) = 2 /\
  exists r,
    snd (processAudioFile no_clock
           (Float32Samples
              (stream_of (loaded (steady_session []))
                 [silence 4160; silence 4160; silence 4160]))
           (loaded (steady_session []))) = Ok r /\
    calls_made (loaded (steady_session []))
      (fst (processAudioFile no_clock
              (Float32Samples
                 (stream_of (loaded (steady_session []))
                    [silence 4160; silence 4160; silence 4160]))
              (loaded (steady_session [])))) = 1 /\
    frameCount r = Some 1.
Proof.
  destruct (hop_by_hop_streaming_runs_one_more_window 0 no_clock
              [silence 4160; silence 4160; silence 4160]
              (loaded (steady_session [])) (steady_session []) eq_refl eq_refl)
    as (H1 & _ & H3); [repeat constructor|].
  split; [exact H1|].
  destruct (snd (processAudioFile no_clock
                   (Float32Samples
                      (stream_of (loaded (steady_session []))
                         [silence 4160; silence 4160; silence 4160]))
                   (loaded (steady_session [])))) as [r|e] eqn:E.
  - exists r. split; [reflexivity|]. exact (H3 r eq_refl).
  - exfalso. vm_compute in E. discriminate.
Defined.

(** ** What the decoder reads *)

(** X23.  A decoded frame depends on the raw entries 0 to 51, 150 and 165
    to 168 only: two raw vectors that agree there (whatever their lengths
    and their other entries, the tongue region and the rest of the jaw
    region included) decode to the same frame. *)
Theorem parseOutputs_reads_only
  {M : MathExp} (sess : Session) (now : Z) (name : string) (t1 t2 : Tensor) :
  name = first_name (outputNames sess) ->
  (forall i, 0 <= i < 52 \/ i = 150 \/ 165 <= i < 169 ->
             at_index (t_data t1) i = at_index (t_data t2) i) ->
  parseOutputs sess now [(name, t1)] = parseOutputs sess now [(name, t2)].
Proof.
  intros -> H. unfold parseOutputs. cbn [lookup].
  rewrite String.eqb_refl. cbn [require bind]. f_equal.
  change (Z.min (len blendshapeNames) skinSize) with 52.
  f_equal.
  - apply map_ext_in. intros i Hi. apply in_range in Hi.
    cbn [skinOffset Z.add]. now rewrite (H i) by lia.
  - change (range jawSize) with (0 :: map (fun j => j + 1) (range 14)).
    cbn [map at_index Z.ltb Z.compare nth_error Z.to_nat to_number].
    change (jawOffset + 0) with 150. now rewrite (H 150) by lia.
  - change (eyesOffset + 1) with 166. change (eyesOffset + 2) with 167.
    change (eyesOffset + 3) with 168. change eyesOffset with 165.
    rewrite (H 165), (H 166), (H 167), (H 168) by lia. reflexivity.
Qed.

Lemma parseOutputs_reads_only_witness :
  parseOutputs (steady_session []) 0
    [("output"%string, mkTensor "float32" (silence 169) [1; 169])]
  = parseOutputs (steady_session []) 0
      [("output"%string,
        mkTensor "float32"
          (silence 52 ++ map Num.of_Z (range 98) ++ silence 19 ++ [Num.nan])
          [1; 170])].
Proof.
  apply parseOutputs_reads_only; [reflexivity|].
  intros i Hi.
  assert (C : i = 150 \/ In i (range 52) \/ In i (map (fun j => j + 165) (range 4))).
  { destruct Hi as [Hi|[Hi|Hi]]; [right; left; now apply in_range|now left|].
    right. right. apply in_map_iff. exists (i - 165). split; [lia|].
    apply in_range. lia. }
  destruct C as [->|[C|C]]; [reflexivity| |];
    vm_compute in C; repeat (destruct C as [<-|C]; [reflexivity|]);
    contradiction.
Defined.
